(** * Bot-testing core: pattern probes, element extraction, coverage, test ids

    A shallow embedding of the configuration-extraction and test-parametrization
    core of the bot testing harness:

    - [bot_testing/utils.py]                (module [Utils], over [PyStr] and [Re])
    - [bot_testing/coverage/tracker.py]     (module [Tracker])
    - [bot_testing/config/element_types.py] (modules [BlockInfo], [EntryEdgeInfo],
                                             [NodeInfo], [ScenarioInfo])
    - [bot_testing/config/extractor.py]     (module [Extractor], over [Config])
    - [tests/conftest.py]                   (module [Conftest])

    The definitions come first; the properties, one theorem per claim,
    follow them.

    Python [str] values are sequences of Unicode code points and are modelled
    as [list N]; literals are written [text "..."], which decodes the UTF-8
    bytes of the literal. *)

From Stdlib Require Import NArith ZArith String Ascii DecimalString DecimalNat.
From stdpp Require Import base option list gmap.

Set Default Proof Using "Type".

(** ** Python strings *)

Module PyStr.

Abbreviation str := (list N).

(** Decoding of the UTF-8 bytes of a literal into code points. *)
Fixpoint utf8_decode (bs : list N) : str :=
  match bs with
  | [] => []
  | b0 :: r0 =>
      if (b0 <? 128)%N then b0 :: utf8_decode r0
      else if (b0 <? 224)%N then
        match r0 with
        | b1 :: r1 => ((b0 - 192) * 64 + (b1 - 128))%N :: utf8_decode r1
        | [] => []
        end
      else if (b0 <? 240)%N then
        match r0 with
        | b1 :: b2 :: r2 =>
            ((b0 - 224) * 4096 + (b1 - 128) * 64 + (b2 - 128))%N :: utf8_decode r2
        | _ => []
        end
      else
        match r0 with
        | b1 :: b2 :: b3 :: r3 =>
            ((b0 - 240) * 262144 + (b1 - 128) * 4096 + (b2 - 128) * 64 + (b3 - 128))%N
              :: utf8_decode r3
        | _ => []
        end
  end.

Definition text (s : string) : str :=
  utf8_decode (map N_of_ascii (list_ascii_of_string s)).

(** [str(n)] of a non-negative integer, as an f-string interpolates it. *)
Definition decimal (n : nat) : str :=
  text (NilZero.string_of_uint (Nat.to_uint n)).

Definition str_eqb (a b : str) : bool := bool_decide (a = b).

(** The characters [str.isspace], [str.split], [str.strip] and the [\s] class
    of [re] treat as whitespace. *)
Definition is_space (c : N) : bool :=
  ((9 <=? c) && (c <=? 13) || (28 <=? c) && (c <=? 32) || (c =? 133) || (c =? 160)
   || (c =? 5760) || (8192 <=? c) && (c <=? 8202) || (c =? 8232) || (c =? 8233)
   || (c =? 8239) || (c =? 8287) || (c =? 12288))%N.

(** [c in chars] for a one-character [c]. *)
Definition char_in (chars : str) (c : N) : bool := existsb (N.eqb c) chars.

Fixpoint drop_while (p : N -> bool) (s : str) : str :=
  match s with
  | c :: s' => if p c then drop_while p s' else s
  | [] => []
  end.

(** [s.lstrip(chars)], [s.rstrip(chars)] and [s.strip()]. *)
Definition lstrip (chars : str) (s : str) : str := drop_while (char_in chars) s.
Definition rstrip (chars : str) (s : str) : str :=
  rev (drop_while (char_in chars) (rev s)).
Definition strip (s : str) : str :=
  rev (drop_while is_space (rev (drop_while is_space s))).

(** [s.split(sep)] for a one-character separator: the pieces between the
    occurrences of [sep]; never empty. *)
Fixpoint split_on (sep : N) (s : str) : list str :=
  match s with
  | [] => [[]]
  | c :: s' =>
      if (c =? sep)%N then [] :: split_on sep s'
      else match split_on sep s' with
           | w :: ws => (c :: w) :: ws
           | [] => [[c]]
           end
  end.

(** [s.split()]: the maximal runs of non-whitespace characters. *)
Fixpoint split_ws_go (cur : str) (s : str) : list str :=
  match s with
  | [] => match cur with [] => [] | _ => [rev cur] end
  | c :: s' =>
      if is_space c
      then match cur with
           | [] => split_ws_go [] s'
           | _ => rev cur :: split_ws_go [] s'
           end
      else split_ws_go (c :: cur) s'
  end.
Definition split_ws (s : str) : list str := split_ws_go [] s.

(** [sep.join(parts)]. *)
Fixpoint join (sep : str) (parts : list str) : str :=
  match parts with
  | [] => []
  | [w] => w
  | w :: ws => w ++ sep ++ join sep ws
  end.

(** [s.replace(old, new)] for a one-character [old]. *)
Definition replace_char (old : N) (new : str) (s : str) : str :=
  flat_map (fun c => if (c =? old)%N then new else [c]) s.

End PyStr.
Export PyStr.

(** ** The fragment of [re] the sources use

    Every pattern of the sources is a sequence of one-character atoms, each
    alone, under [+] or under [*]. Matching is greedy with backtracking;
    [sub] and [findall] scan left to right over non-overlapping matches, an
    empty match being taken at every position where nothing longer matches
    (Python 3.7 and later). *)

Module Re.

Inductive quant := One | Plus | Star.

Definition item : Type := (N -> bool) * quant.
Definition regex := list item.

Definition lit (c : N) : N -> bool := N.eqb c.

(** Length of the preferred match of [re] at the start of [s]. *)
Fixpoint match_here (re : regex) (s : str) {struct re} : option nat :=
  match re with
  | [] => Some 0
  | (p, q) :: re' =>
      let fix greedy (s : str) : option nat :=
        match s with
        | c :: s' =>
            if p c then
              match greedy s' with
              | Some n => Some (S n)
              | None => match_here re' s
              end
            else match_here re' s
        | [] => match_here re' s
        end in
      match q with
      | One =>
          match s with
          | c :: s' => if p c then S <$> match_here re' s' else None
          | [] => None
          end
      | Plus =>
          match s with
          | c :: s' => if p c then S <$> greedy s' else None
          | [] => None
          end
      | Star => greedy s
      end
  end.

(** [re.sub(re, repl, s)]; [skip] counts the characters of [s] still inside
    the match found last. *)
Fixpoint sub_scan (re : regex) (repl : str) (skip : nat) (s : str) {struct s} : str :=
  match skip, s with
  | S k, _ :: s' => sub_scan re repl k s'
  | S _, [] => []
  | 0, _ =>
      match match_here re s with
      | Some (S n) =>
          repl ++ match s with _ :: s' => sub_scan re repl n s' | [] => [] end
      | Some 0 =>
          repl ++ match s with c :: s' => c :: sub_scan re repl 0 s' | [] => [] end
      | None =>
          match s with c :: s' => c :: sub_scan re repl 0 s' | [] => [] end
      end
  end.
Definition sub (re : regex) (repl : str) (s : str) : str := sub_scan re repl 0 s.

(** [re.findall(re, s)]. *)
Fixpoint findall_scan (re : regex) (skip : nat) (s : str) {struct s} : list str :=
  match skip, s with
  | S k, _ :: s' => findall_scan re k s'
  | S _, [] => []
  | 0, _ =>
      match match_here re s with
      | Some n =>
          take n s ::
            match n, s with
            | S m, _ :: s' => findall_scan re m s'
            | 0, _ :: s' => findall_scan re 0 s'
            | _, [] => []
            end
      | None =>
          match s with _ :: s' => findall_scan re 0 s' | [] => [] end
      end
  end.
Definition findall (re : regex) (s : str) : list str := findall_scan re 0 s.

End Re.

(** ** bot_testing/utils.py *)

Module Utils.
Import Re.

Definition caret : N := 94.
Definition dollar : N := 36.
Definition bar : N := 124.
Definition backslash : N := 92.
Definition dot : N := 46.
Definition star : N := 42.

(** The [replacements] table; each entry is the pattern, as [re] reads the
    raw literal of the source, and its replacement. *)
Definition replacements : list (regex * str) :=
  [ ([(is_space, Plus)], text " ")                                      (* r"\s+"   *)
  ; ([(is_space, Star)], text " ")                                      (* r"\s*"   *)
  ; ([(lit dot, Plus)], text " ")                                       (* r"\.+"   *)
  ; ([(lit dot, One); (lit star, One)], text " ")                       (* r"\.\*"  *)
  ; ([(lit backslash, One); (lit 100%N, Plus)], text "1")               (* r"\\d+"  *)
  ; ([(lit backslash, One); (lit 100%N, One); (lit star, One)], text "1") (* r"\\d\*" *)
  ; ([(lit backslash, One); (lit 119%N, Plus)], text "a")               (* r"\\w+"  *)
  ; ([(lit backslash, One); (lit 119%N, One); (lit star, One)], text "a") (* r"\\w\*" *)
  ].

(** Line 36: [pattern.lstrip("^").rstrip("$")]. *)
Definition strip_anchors (pattern : str) : str :=
  rstrip [dollar] (lstrip [caret] pattern).

Definition regex_to_sample_message (pattern : str) : str :=
  match pattern with
  | [] => text "test"
  | _ =>
      let pattern :=
        if char_in pattern bar then hd [] (split_on bar pattern) else pattern in
      let pattern := strip_anchors pattern in
      let pattern :=
        fold_left (fun acc '(regex_pat, replacement) => sub regex_pat replacement acc)
                  replacements pattern in
      let pattern := replace_char backslash [] pattern in
      let pattern := join (text " ") (split_ws pattern) in
      match strip pattern with
      | [] => text "test"
      | _ => strip pattern
      end
  end.

End Utils.

(** ** bot_testing/coverage/tracker.py *)

Module Tracker.

(** One entry of a history: [{"passed": passed}]. *)
Record test_record := { passed : bool }.

(** A Python number: [round] returns an [int] for an [int] and a [float] for
    a [float]. *)
Inductive number (float : Type) :=
| Int (z : Z)
| Float (f : float).
Arguments Int {float} z.
Arguments Float {float} f.

Record CoverageTracker := {
  tested_elements : gset str;
  test_results : gmap str (list test_record)
}.

(** The dictionary [get_coverage_summary] returns, by key. *)
Record summary (float : Type) := {
  sum_total_elements : Z;
  sum_tested_elements : Z;
  sum_coverage_percent : number float;
  sum_untested_elements : Z
}.
Arguments sum_total_elements {float} s.
Arguments sum_tested_elements {float} s.
Arguments sum_coverage_percent {float} s.
Arguments sum_untested_elements {float} s.

(** [__init__]: an empty set and an empty [defaultdict(list)]. *)
Definition init : CoverageTracker :=
  {| tested_elements := ∅; test_results := ∅ |}.

(** [self.tested_elements.add(key); self.test_results[key].append(...)]:
    a missing key of the [defaultdict] reads as the empty list. *)
Definition mark (key : str) (passed : bool) (self : CoverageTracker) : CoverageTracker :=
  {| tested_elements := {[ key ]} ∪ tested_elements self;
     test_results :=
       <[ key := default [] (test_results self !! key) ++ [ {| passed := passed |} ] ]>
         (test_results self) |}.

Definition mark_block_tested (block_path : str) (passed : bool) :=
  mark (text "block:" ++ block_path) passed.
Definition mark_edge_tested (edge_path : str) (passed : bool) :=
  mark (text "edge:" ++ edge_path) passed.
Definition mark_node_tested (node_path : str) (passed : bool) :=
  mark (text "node:" ++ node_path) passed.

(** The history [test_results[key]] without inserting the key. *)
Definition history (key : str) (self : CoverageTracker) : list test_record :=
  default [] (test_results self !! key).

Section Summary.
(** The interpreter's binary floating point is not part of the sources:
    [int / int] away from a zero divisor, [float * int] and
    [round(float, ndigits)] are taken as given. *)
Context {float : Type}.
Variable int_div : Z -> Z -> float.
Variable float_mul : float -> Z -> float.
Variable float_round : float -> Z -> float.

(** [a / b]: [None] stands for [ZeroDivisionError]. *)
Definition true_div (a b : Z) : option float :=
  if (b =? 0)%Z then None else Some (int_div a b).

(** [round(x, ndigits)] with [0 <= ndigits]. *)
Definition py_round (x : number float) (ndigits : Z) : number float :=
  match x with
  | Int z => Int z
  | Float f => Float (float_round f ndigits)
  end.

Definition get_coverage_summary (total_elements : Z) (self : CoverageTracker)
  : option (summary float) :=
  let tested := Z.of_nat (size (tested_elements self)) in
  coverage ←
    (if (0 <? total_elements)%Z
     then q ← true_div tested total_elements; Some (Float (float_mul q 100))
     else Some (Int 0%Z));
  Some {| sum_total_elements := total_elements;
          sum_tested_elements := tested;
          sum_coverage_percent := py_round coverage 1;
          sum_untested_elements := (total_elements - tested)%Z |}.
End Summary.

End Tracker.

(** ** The loaded configuration

    A configuration is the mapping [json.load] returns for a bot export that
    follows the import schema: [scenarios], [nodes], [blocks] and
    [entry_edges] are lists of mappings when present and the fields the
    extractor reads are strings when present. Each mapping is the record of
    those optional fields ([None]: the key is absent) with its other keys. *)

Module Config.

#[local] Unset Elimination Schemes.
Inductive json :=
| JNull
| JBool (b : bool)
| JInt (z : Z)
| JStr (s : str)
| JList (l : list json)
| JDict (d : list (str * json)).
#[local] Set Elimination Schemes.

Abbreviation other_keys := (list (str * json)).

Record block := {
  block_type : option str;         (* "type" *)
  block_id : option str;           (* "id" *)
  block_other : other_keys
}.

Record entry_edge := {
  edge_type : option str;            (* "type" *)
  edge_value : option str;           (* "value" *)
  edge_target_node_id : option str;  (* "target_node_id" *)
  edge_id : option str;              (* "id" *)
  edge_name : option str;            (* "name" *)
  edge_other : other_keys
}.

Record node := {
  node_id : option str;              (* "id" *)
  node_name : option str;            (* "name" *)
  node_next_node_id : option str;    (* "next_node_id" *)
  node_blocks : option (list block); (* "blocks" *)
  node_other : other_keys
}.

Record scenario := {
  scenario_slug : option str;               (* "slug" *)
  scenario_name : option str;               (* "name" *)
  scenario_id : option str;                 (* "id" *)
  scenario_parent_scenario_id : option str; (* "parent_scenario_id" *)
  scenario_nodes : option (list node);      (* "nodes" *)
  scenario_entry_edges : option (list entry_edge); (* "entry_edges" *)
  scenario_other : other_keys
}.

(** The mapping the extractor reads [scenarios] from. *)
Record attributes := {
  scenarios : option (list scenario);  (* "scenarios" *)
  attributes_other : other_keys
}.

(** The value under ["data"], with its optional ["attributes"]. *)
Record envelope := {
  envelope_attributes : option attributes;  (* "attributes" *)
  envelope_other : other_keys
}.

(** The top-level mapping: its optional ["data"] and its remaining keys,
    [scenarios] among them. *)
Record config := {
  config_data : option envelope;  (* "data" *)
  config_top : attributes
}.

(** Truth value of the mapping: a [dict] is false when it has no key. *)
Definition truthy (c : config) : bool :=
  match config_data c, scenarios (config_top c), attributes_other (config_top c) with
  | None, None, [] => false
  | _, _, _ => true
  end.

(** [d.get(key, default)] on a field of the record. *)
Definition get {A : Type} (field : option A) (default : A) : A :=
  match field with Some v => v | None => default end.

(** [a == o] for a string [a] and the result [o] of [d.get(key)]: a string
    equals no absent value ([None]). *)
Definition eq_get (a : str) (o : option str) : bool :=
  match o with Some b => str_eqb a b | None => false end.

(** [enumerate(l)]. *)
Definition enumerate {A : Type} (l : list A) : list (nat * A) := imap pair l.

End Config.

(** ** bot_testing/config/element_types.py *)

Module BlockInfo.
Record t := {
  path : str;
  type : str;
  data : Config.block;
  scenario_slug : str;
  scenario_name : str;
  node_id : str;
  node_name : str;
  block_id : str
}.
End BlockInfo.

Module EntryEdgeInfo.
Record t := {
  path : str;
  type : str;
  pattern : str;
  target_node_id : str;
  scenario_slug : str;
  scenario_name : str;
  edge_id : option str;
  name : option str
}.
End EntryEdgeInfo.

Module NodeInfo.
Record t := {
  path : str;
  node_id : str;
  name : str;
  scenario_slug : str;
  scenario_name : str;
  blocks : list BlockInfo.t;
  next_node_id : option str
}.
End NodeInfo.

Module ScenarioInfo.
Record t := {
  path : str;
  scenario_id : option str;
  name : str;
  slug : str;
  parent_scenario_id : option str;
  entry_edges : list EntryEdgeInfo.t;
  nodes : list NodeInfo.t
}.
End ScenarioInfo.

(** ** bot_testing/config/extractor.py

    A method of [ElementExtractor] is a function of the object's state that
    returns the state it leaves and either its result or [None] when the
    method raises (reading a key of the [None] that [config_attrs] is before
    a configuration is set). *)

Module Extractor.
Import Config.

Record ElementExtractor := { config_attrs : option attributes }.

Definition init : ElementExtractor := {| config_attrs := None |}.

Definition method (A : Type) : Type := ElementExtractor -> option A * ElementExtractor.

Definition ret {A : Type} (a : A) : method A := fun self => (Some a, self).

Definition bind {A B : Type} (m : method A) (k : A -> method B) : method B :=
  fun self =>
    match m self with
    | (Some a, self') => k a self'
    | (None, self') => (None, self')
    end.

Notation "'do' x <- m ; k" := (bind m (fun x => k))
  (at level 10, x name, m at level 100, k at level 200).

(** A loop whose body calls methods: the results of the body, in order. *)
Fixpoint for_each {A B : Type} (l : list A) (body : A -> method B) : method (list B) :=
  match l with
  | [] => ret []
  | a :: l' => do b <- body a ; do bs <- for_each l' body ; ret (b :: bs)
  end.

(** [self.config_attrs.get(...)]. *)
Definition read_config_attrs : method attributes :=
  fun self => (config_attrs self, self).

(** The mapping under [data.attributes] when the configuration has one,
    else the configuration itself, of which the extractor reads
    [scenarios]. *)
Definition extract_bot_attributes (c : config) : attributes :=
  match config_data c with
  | Some d =>
      match envelope_attributes d with
      | Some attrs => attrs
      | None => config_top c
      end
  | None => config_top c
  end.

Definition set_config_attr (c : config) : method unit :=
  fun _ => (Some tt, {| config_attrs := Some (extract_bot_attributes c) |}).

(** [scenario.get("slug", scenario.get("name", ""))]. *)
Definition slug_of (s : scenario) : str :=
  get (scenario_slug s) (get (scenario_name s) []).

(** The [BlockInfo] built for block [b_idx] of [nd] in scenario [s_idx]. *)
Definition block_info (s_idx : nat) (sc : scenario) (nd : node) (b_idx : nat) (b : block)
  : BlockInfo.t :=
  let node_id := get (node_id nd) [] in
  {| BlockInfo.path :=
       text "scenarios[" ++ decimal s_idx ++ text "].nodes[" ++ node_id
         ++ text "].blocks[" ++ decimal b_idx ++ text "]";
     BlockInfo.type := get (block_type b) (text "unknown");
     BlockInfo.data := b;
     BlockInfo.scenario_slug := slug_of sc;
     BlockInfo.scenario_name := get (scenario_name sc) [];
     BlockInfo.node_id := node_id;
     BlockInfo.node_name := get (node_name nd) [];
     BlockInfo.block_id := get (block_id b) (text "block_" ++ decimal b_idx) |}.

Definition extract_blocks : method (list BlockInfo.t) :=
  do attrs <- read_config_attrs ;
  ret (flat_map (fun '(s_idx, sc) =>
         flat_map (fun nd =>
           map (fun '(b_idx, b) => block_info s_idx sc nd b_idx b)
               (enumerate (get (node_blocks nd) [])))
           (get (scenario_nodes sc) []))
         (enumerate (get (scenarios attrs) []))).

Definition extract_blocks_by_type (block_type : str) : method (list BlockInfo.t) :=
  do blocks <- extract_blocks ;
  ret (filter (fun b => str_eqb (BlockInfo.type b) block_type = true) blocks).

(** The [EntryEdgeInfo] built for edge [e_idx] of scenario [s_idx]. *)
Definition edge_info (s_idx : nat) (sc : scenario) (e_idx : nat) (e : entry_edge)
  : EntryEdgeInfo.t :=
  {| EntryEdgeInfo.path :=
       text "scenarios[" ++ decimal s_idx ++ text "].entry_edges[" ++ decimal e_idx
         ++ text "]";
     EntryEdgeInfo.type := get (edge_type e) (text "unknown");
     EntryEdgeInfo.pattern := get (edge_value e) [];
     EntryEdgeInfo.target_node_id := get (edge_target_node_id e) [];
     EntryEdgeInfo.scenario_slug := slug_of sc;
     EntryEdgeInfo.scenario_name := get (scenario_name sc) [];
     EntryEdgeInfo.edge_id := edge_id e;
     EntryEdgeInfo.name := edge_name e |}.

Definition extract_entry_edges : method (list EntryEdgeInfo.t) :=
  do attrs <- read_config_attrs ;
  ret (flat_map (fun '(s_idx, sc) =>
         map (fun '(e_idx, e) => edge_info s_idx sc e_idx e)
             (enumerate (get (scenario_entry_edges sc) [])))
         (enumerate (get (scenarios attrs) []))).

Definition extract_entry_edges_by_type (edge_type : str) : method (list EntryEdgeInfo.t) :=
  do edges <- extract_entry_edges ;
  ret (filter (fun e => str_eqb (EntryEdgeInfo.type e) edge_type = true) edges).

(** The [NodeInfo] built for node [n_idx] of scenario [s_idx] from the
    blocks a call of [extract_blocks] returned. *)
Definition node_info (s_idx : nat) (sc : scenario) (n_idx : nat) (nd : node)
    (blocks : list BlockInfo.t) : NodeInfo.t :=
  let node_blocks :=
    filter (fun b => eq_get (BlockInfo.node_id b) (node_id nd) = true) blocks in
  {| NodeInfo.path :=
       text "scenarios[" ++ decimal s_idx ++ text "].nodes[" ++ decimal n_idx ++ text "]";
     NodeInfo.node_id := get (node_id nd) [];
     NodeInfo.name := get (node_name nd) [];
     NodeInfo.scenario_slug := slug_of sc;
     NodeInfo.scenario_name := get (scenario_name sc) [];
     NodeInfo.blocks := node_blocks;
     NodeInfo.next_node_id := node_next_node_id nd |}.

Definition extract_nodes : method (list NodeInfo.t) :=
  do attrs <- read_config_attrs ;
  do per_scenario <-
    for_each (enumerate (get (scenarios attrs) [])) (fun '(s_idx, sc) =>
      for_each (enumerate (get (scenario_nodes sc) [])) (fun '(n_idx, nd) =>
        do blocks <- extract_blocks ;
        ret (node_info s_idx sc n_idx nd blocks))) ;
  ret (concat per_scenario).

(** The [ScenarioInfo] built for scenario [s_idx] from the edges and nodes
    the calls of [extract_entry_edges] and [extract_nodes] returned. *)
Definition scenario_info (s_idx : nat) (sc : scenario)
    (all_edges : list EntryEdgeInfo.t) (all_nodes : list NodeInfo.t) : ScenarioInfo.t :=
  let slug := slug_of sc in
  {| ScenarioInfo.path := text "scenarios[" ++ decimal s_idx ++ text "]";
     ScenarioInfo.scenario_id := scenario_id sc;
     ScenarioInfo.name := get (scenario_name sc) [];
     ScenarioInfo.slug := slug;
     ScenarioInfo.parent_scenario_id := scenario_parent_scenario_id sc;
     ScenarioInfo.entry_edges :=
       filter (fun e => str_eqb (EntryEdgeInfo.scenario_slug e) slug = true) all_edges;
     ScenarioInfo.nodes :=
       filter (fun n => str_eqb (NodeInfo.scenario_slug n) slug = true) all_nodes |}.

Definition extract_scenarios : method (list ScenarioInfo.t) :=
  do attrs <- read_config_attrs ;
  for_each (enumerate (get (scenarios attrs) [])) (fun '(s_idx, sc) =>
    do all_edges <- extract_entry_edges ;
    do all_nodes <- extract_nodes ;
    ret (scenario_info s_idx sc all_edges all_nodes)).

Definition get_all_node_ids : method (gset str) :=
  do attrs <- read_config_attrs ;
  ret (list_to_set
         (flat_map (fun sc => map (fun nd => get (node_id nd) [])
                                  (get (scenario_nodes sc) []))
                   (get (scenarios attrs) []))).

(** [{s.get("id") for s in scenarios if "id" in s}]. *)
Definition get_all_scenario_ids : method (gset str) :=
  do attrs <- read_config_attrs ;
  ret (list_to_set (omap scenario_id (get (scenarios attrs) []))).

Definition find_block_by_id (block_id : str) : method (option BlockInfo.t) :=
  do blocks <- extract_blocks ;
  ret (find (fun b => str_eqb (BlockInfo.block_id b) block_id) blocks).

Definition find_node_by_id (node_id : str) : method (option NodeInfo.t) :=
  do nodes <- extract_nodes ;
  ret (find (fun n => str_eqb (NodeInfo.node_id n) node_id) nodes).

Definition find_scenario_by_slug (slug : str) : method (option ScenarioInfo.t) :=
  do scs <- extract_scenarios ;
  ret (find (fun s => str_eqb (ScenarioInfo.slug s) slug) scs).

(** The result of a method called on a fresh extractor after
    [set_config_attr(config)]. *)
Definition on_config {A : Type} (c : config) (m : method A) : option A :=
  fst ((do _ <- set_config_attr c ; m) init).

End Extractor.

(** ** tests/conftest.py: dynamic parametrization *)

Module Conftest.
Import Config Extractor Re.

(** [pytest.mark.skip(reason)]. *)
Inductive mark := skip (reason : str).

(** One entry of the [argvalues] of [metafunc.parametrize]: an extracted
    element or [pytest.param(None, marks=...)]. *)
Inductive argvalue :=
| edge_case (e : EntryEdgeInfo.t)
| scenario_case (s : ScenarioInfo.t)
| param_none (marks : list mark).

(** One call [metafunc.parametrize(argname, argvalues, ids=ids)]; it
    registers one test case per entry of [argvalues]. *)
Record parametrize := {
  argname : str;
  argvalues : list argvalue;
  ids : option (list str)
}.

Definition is_skipped (v : argvalue) : bool :=
  match v with
  | param_none (_ :: _) => true
  | _ => false
  end.

Section TestIds.
(** [str.isalnum] on the code points from 128 on is the interpreter's
    Unicode table, not part of the sources. *)
Variable unicode_alnum : N -> bool.

(** The class [\w] of a [str] pattern. *)
Definition is_word (c : N) : bool :=
  if (c <? 128)%N
  then ((48 <=? c) && (c <=? 57) || (65 <=? c) && (c <=? 90) || (c =? 95)
        || (97 <=? c) && (c <=? 122))%N
  else unicode_alnum c.

(** The class [[\wа-яА-ЯёЁ]]. *)
Definition word_class (c : N) : bool :=
  (is_word c || (1072 <=? c) && (c <=? 1103) || (1040 <=? c) && (c <=? 1071)
   || (c =? 1105) || (c =? 1025))%N.

Definition _make_test_id (pattern : str) (index : nat) : str :=
  let words := findall [(word_class, Plus)] pattern in
  match words with
  | _ :: _ =>
      let meaningful := take 50 (join (text "_") (take 3 words)) in
      text "match_" ++ decimal index ++ text "_" ++ meaningful
  | [] => text "match_" ++ decimal index ++ text "_pattern"
  end.

Definition has_buttons (s : ScenarioInfo.t) : bool :=
  existsb (fun nd =>
             existsb (fun b => str_eqb (BlockInfo.type b) (text "buttons"))
                     (NodeInfo.blocks nd))
          (ScenarioInfo.nodes s).

(** The call for [match_edge]: one case per match edge with its id, or
    one skipped case when [edges] is empty. *)
Definition parametrize_match_edge (edges : list EntryEdgeInfo.t) : parametrize :=
  match edges with
  | _ :: _ =>
      let ids :=
        map (fun '(i, e) => _make_test_id (EntryEdgeInfo.pattern e) i)
            (enumerate edges) in
      {| argname := text "match_edge";
         argvalues := map edge_case edges;
         ids := Some ids |}
  | [] =>
      {| argname := text "match_edge";
         argvalues := [ param_none [ skip (text "No match edges") ] ];
         ids := None |}
  end.

(** The call for [buttons_scenario]. *)
Definition parametrize_buttons_scenario (all_scenarios : list ScenarioInfo.t)
  : parametrize :=
  let scenarios_with_buttons := filter (fun s => has_buttons s = true) all_scenarios in
  match scenarios_with_buttons with
  | _ :: _ =>
      {| argname := text "buttons_scenario";
         argvalues := map scenario_case scenarios_with_buttons;
         ids := Some (map ScenarioInfo.slug scenarios_with_buttons) |}
  | [] =>
      {| argname := text "buttons_scenario";
         argvalues := [ param_none [ skip (text "No buttons blocks") ] ];
         ids := None |}
  end.

(** The calls of [metafunc.parametrize] the hook makes, in order, for the
    result [loaded] of [_load_bot_config] ([None]: no configuration) and
    the [fixturenames] of the test function; [None] if the hook raises. *)
Definition pytest_generate_tests (loaded : option config) (fixturenames : list str)
  : option (list parametrize) :=
  match loaded with
  | None => Some []
  | Some c =>
      if negb (truthy c) then Some []
      else
        fst ((do _ <- set_config_attr c ;
              do for_match <-
                (if bool_decide (text "match_edge" ∈ fixturenames) then
                   do edges <- extract_entry_edges_by_type (text "match") ;
                   ret [ parametrize_match_edge edges ]
                 else ret []) ;
              do for_buttons <-
                (if bool_decide (text "buttons_scenario" ∈ fixturenames) then
                   do all_scenarios <- extract_scenarios ;
                   ret [ parametrize_buttons_scenario all_scenarios ]
                 else ret []) ;
              ret (for_match ++ for_buttons)) init)
  end.

(** The calls made for the [match_edge] argument. *)
Definition match_edge_calls (loaded : option config) (fixturenames : list str)
  : option (list parametrize) :=
  filter (fun call => argname call = text "match_edge")
    <$> pytest_generate_tests loaded fixturenames.
End TestIds.

End Conftest.

(** ** Reading a configuration directly

    What the configuration holds, stated on the configuration itself, and
    what the extraction methods return when [config_attrs] is set. *)

Module Shape.
Import Config Extractor.

(** The match-type entry edges of a scenario: those whose [type] is
    ["match"]. *)
Definition is_match (e : entry_edge) : bool :=
  match edge_type e with Some t => str_eqb t (text "match") | None => false end.

(** The patterns of the match-type entry edges, in document order. *)
Definition match_patterns (attrs : attributes) : list str :=
  flat_map (fun sc => map (fun e => get (edge_value e) [])
                          (filter (fun e => is_match e = true)
                                  (get (scenario_entry_edges sc) [])))
           (get (scenarios attrs) []).

Definition blocks_of (attrs : attributes) : list BlockInfo.t :=
  flat_map (fun '(s_idx, sc) =>
    flat_map (fun nd =>
      map (fun '(b_idx, b) => block_info s_idx sc nd b_idx b)
          (enumerate (get (node_blocks nd) [])))
      (get (scenario_nodes sc) []))
    (enumerate (get (scenarios attrs) [])).

(** The entry edges built from scenario [s_idx]. *)
Definition edges_of_scenario (s_idx : nat) (sc : scenario) : list EntryEdgeInfo.t :=
  map (fun '(e_idx, e) => edge_info s_idx sc e_idx e)
      (enumerate (get (scenario_entry_edges sc) [])).

Definition edges_of (attrs : attributes) : list EntryEdgeInfo.t :=
  flat_map (fun '(s_idx, sc) => edges_of_scenario s_idx sc)
           (enumerate (get (scenarios attrs) [])).

(** The nodes built from scenario [s_idx]. *)
Definition nodes_of_scenario (attrs : attributes) (s_idx : nat) (sc : scenario)
  : list NodeInfo.t :=
  map (fun '(n_idx, nd) => node_info s_idx sc n_idx nd (blocks_of attrs))
      (enumerate (get (scenario_nodes sc) [])).

Definition nodes_of (attrs : attributes) : list NodeInfo.t :=
  concat (map (fun '(s_idx, sc) => nodes_of_scenario attrs s_idx sc)
              (enumerate (get (scenarios attrs) []))).

Definition scenarios_of (attrs : attributes) : list ScenarioInfo.t :=
  map (fun '(s_idx, sc) => scenario_info s_idx sc (edges_of attrs) (nodes_of attrs))
      (enumerate (get (scenarios attrs) [])).

(** A configuration with the given scenarios at its top level and nothing
    else, and its parts with only the given fields. *)
Definition config_with (scs : list scenario) : config :=
  {| config_data := None;
     config_top := {| scenarios := Some scs; attributes_other := [] |} |}.

Definition empty_config : config :=
  {| config_data := None;
     config_top := {| scenarios := None; attributes_other := [] |} |}.

End Shape.

(** ** Sample configurations *)

Module Samples.
Import Config.

Definition a_block (type : option str) : block :=
  {| block_type := type; block_id := None; block_other := [] |}.

Definition a_node (id : option str) (blocks : list block) : node :=
  {| node_id := id; node_name := None; node_next_node_id := None;
     node_blocks := Some blocks; node_other := [] |}.

Definition an_edge (type value : str) : entry_edge :=
  {| edge_type := Some type; edge_value := Some value; edge_target_node_id := None;
     edge_id := None; edge_name := None; edge_other := [] |}.

Definition a_scenario (name : str) (id : option str) (nodes : list node)
    (edges : list entry_edge) : scenario :=
  {| scenario_slug := None; scenario_name := Some name; scenario_id := id;
     scenario_parent_scenario_id := None; scenario_nodes := Some nodes;
     scenario_entry_edges := Some edges; scenario_other := [] |}.

(** [{"scenarios": [{"name": "main", "nodes": [{"blocks": [{}]}],
    "entry_edges": []}]}]: one node without [id] that holds one block. *)
Definition idless_node_config : config :=
  Shape.config_with [ a_scenario (text "main") None [ a_node None [ a_block None ] ] [] ].

(** Two scenarios, the second without [id]. *)
Definition first_with_id : scenario :=
  a_scenario (text "greeting") (Some (text "s1")) [] [].
Definition second_without_id : scenario :=
  a_scenario (text "help") None [ a_node (Some (text "n1")) [] ]
             [ an_edge (text "match") (text "help") ].
Definition idless_scenario_config : config :=
  Shape.config_with [ first_with_id; second_without_id ].

(** Two scenarios named ["faq"], neither with a [slug]. *)
Definition faq_one : scenario :=
  a_scenario (text "faq") (Some (text "s1")) [ a_node (Some (text "n1")) [] ]
             [ an_edge (text "match") (text "faq") ].
Definition faq_two : scenario :=
  a_scenario (text "faq") (Some (text "s2")) [ a_node (Some (text "n2")) [] ]
             [ an_edge (text "event") (text "init") ].
(** The two with a scenario of another name, with its own node and edge,
    between them. *)
Definition shared_slug_config : config :=
  Shape.config_with [ faq_one; second_without_id; faq_two ].

(** Three match edges over two scenarios, with an event edge between. *)
Definition three_match_config : config :=
  Shape.config_with
    [ a_scenario (text "main") None []
        [ an_edge (text "match") (text "привет");
          an_edge (text "event") (text "init");
          an_edge (text "match") (text "/start") ];
      a_scenario (text "help") None []
        [ an_edge (text "match") (text "помощь совет") ] ].

(** One scenario with an event edge and no match edge. *)
Definition no_match_config : config :=
  Shape.config_with
    [ a_scenario (text "main") None [] [ an_edge (text "event") (text "init") ] ].

(** A table that knows no alphanumeric character beyond ASCII. *)
Definition no_unicode_alnum : N -> bool := fun _ => false.

End Samples.

(** The characters on which the word class does not depend on the Unicode
    table: the ASCII ones and the Russian letters the class lists. *)
Definition table_free (c : N) : Prop :=
  (c <? 128)%N = true \/ Conftest.word_class Samples.no_unicode_alnum c = true.

(** ** Sequences of tracker calls *)

Module Calls.
Import Tracker.

(** One call of a marking method. *)
Inductive call :=
| MarkBlock (block_path : str) (passed : bool)
| MarkEdge (edge_path : str) (passed : bool)
| MarkNode (node_path : str) (passed : bool).

Definition apply (c : call) (t : CoverageTracker) : CoverageTracker :=
  match c with
  | MarkBlock p b => mark_block_tested p b t
  | MarkEdge p b => mark_edge_tested p b t
  | MarkNode p b => mark_node_tested p b t
  end.

(** The key a call marks. *)
Definition key_of (c : call) : str :=
  match c with
  | MarkBlock p _ => text "block:" ++ p
  | MarkEdge p _ => text "edge:" ++ p
  | MarkNode p _ => text "node:" ++ p
  end.

Definition result_of (c : call) : bool :=
  match c with
  | MarkBlock _ b | MarkEdge _ b | MarkNode _ b => b
  end.

(** The tracker after the calls, made in order. *)
Definition run (calls : list call) (t : CoverageTracker) : CoverageTracker :=
  fold_left (fun t c => apply c t) calls t.

End Calls.

(** ** The steps of the pattern-to-probe converter, by name *)

Module Steps.
Import Re Utils.

(** Lines 32-33: the text before the first bar, if there is a bar. *)
Definition first_alternative (pattern : str) : str :=
  if char_in pattern bar then hd [] (split_on bar pattern) else pattern.

(** Lines 50-63: the replacements, the removal of backslashes and the
    clean-up of spaces, on the pattern without its anchors. *)
Definition finish (pattern : str) : str :=
  let pattern :=
    fold_left (fun acc '(regex_pat, replacement) => sub regex_pat replacement acc)
              replacements pattern in
  let pattern := replace_char backslash [] pattern in
  let pattern := join (text " ") (split_ws pattern) in
  match strip pattern with
  | [] => text "test"
  | _ => strip pattern
  end.

(** A word of a probe: not empty, without whitespace and backslash. *)
Definition probe_word (w : str) : Prop :=
  w <> [] /\ Forall (fun c => is_space c = false /\ c <> backslash) w.

End Steps.

(** A character that no step of the converter treats specially: not
    whitespace and none of bar, caret, dollar, dot and backslash. *)
Definition plain (c : N) : bool :=
  negb (is_space c
        || char_in [Utils.bar; Utils.caret; Utils.dollar; Utils.dot; Utils.backslash] c).

(** ** Decimal digits *)

Module Digits.

(** The code points of the digits of a decimal numeral. *)
Fixpoint codes_of_uint (d : Decimal.uint) : str :=
  match d with
  | Decimal.Nil => []
  | Decimal.D0 d => 48%N :: codes_of_uint d
  | Decimal.D1 d => 49%N :: codes_of_uint d
  | Decimal.D2 d => 50%N :: codes_of_uint d
  | Decimal.D3 d => 51%N :: codes_of_uint d
  | Decimal.D4 d => 52%N :: codes_of_uint d
  | Decimal.D5 d => 53%N :: codes_of_uint d
  | Decimal.D6 d => 54%N :: codes_of_uint d
  | Decimal.D7 d => 55%N :: codes_of_uint d
  | Decimal.D8 d => 56%N :: codes_of_uint d
  | Decimal.D9 d => 57%N :: codes_of_uint d
  end.

Definition is_digit (c : N) : bool := ((48 <=? c) && (c <=? 57))%N.

End Digits.

(** ** The entries of a configuration, in document order *)

Module Raw.
Import Config.

Definition scenarios_of_config (attrs : attributes) : list scenario :=
  get (scenarios attrs) [].

Definition nodes_of_config (attrs : attributes) : list node :=
  flat_map (fun sc => get (scenario_nodes sc) []) (scenarios_of_config attrs).

Definition blocks_of_config (attrs : attributes) : list block :=
  flat_map (fun sc => flat_map (fun nd => get (node_blocks nd) [])
                               (get (scenario_nodes sc) []))
           (scenarios_of_config attrs).


End Raw.

(** ** bot_testing/config/element_types.py: [BotInfo] *)

Module BotInfo.
Import Config.

(** One entry of [llm_blocks]: the dictionary with the keys ["scenario"],
    ["model"] and ["result_variable"]. *)
Record llm_block := {
  llm_scenario : str;
  llm_model : json;
  llm_result_variable : option json
}.

Record t := {
  bot_name : option json;
  bot_id : option json;
  version_id : option json;
  no_match_stub_answer : option json;
  request_ttl_in_seconds : option json;
  scenarios : list ScenarioInfo.t;
  blocks_by_type : gmap str nat;
  edges_by_type : gmap str nat;
  llm_blocks : list llm_block;
  extend_blocks_count : nat;
  button_blocks_count : nat
}.


Definition nodes_count (b : t) : nat :=
  list_sum (map (fun s => length (ScenarioInfo.nodes s)) (scenarios b)).

End BotInfo.

(** ** bot_testing/config/bot_analyzer.py: [get_summary] *)

Module Analyzer.
Import Config Extractor.

(** [d.get(key)] on the other keys of a mapping. *)
Definition lookup_key (key : str) (d : other_keys) : option json :=
  snd <$> find (fun entry => str_eqb (fst entry) key) d.

(** The loop [d.setdefault(key, 0); d[key] += 1] over a list. *)
Definition count_by {A : Type} (key : A -> str) (l : list A) : gmap str nat :=
  fold_left (fun d x => <[ key x := S (default 0 (d !! key x)) ]> d) l ∅.

(** [b.data.get("model", {}).get("model_name", "unknown")]: [None] when the
    value under ["model"] is no mapping and has no [get]. *)
Definition model_name (b : block) : option json :=
  match lookup_key (text "model") (block_other b) with
  | None => Some (JStr (text "unknown"))
  | Some (JDict d) => Some (default (JStr (text "unknown")) (lookup_key (text "model_name") d))
  | Some _ => None
  end.

Definition llm_entry (b : BlockInfo.t) : option BotInfo.llm_block :=
  model ← model_name (BlockInfo.data b);
  Some {| BotInfo.llm_scenario := BlockInfo.scenario_slug b;
          BotInfo.llm_model := model;
          BotInfo.llm_result_variable :=
            lookup_key (text "result_variable_name") (block_other (BlockInfo.data b)) |}.

(** A step that raises or returns without touching the extractor. *)
Definition lift {A : Type} (o : option A) : method A := fun self => (o, self).

Definition get_summary : method BotInfo.t :=
  do scenarios <- extract_scenarios ;
  do blocks <- extract_blocks ;
  do edges <- extract_entry_edges ;
  let blocks_by_type := count_by BlockInfo.type blocks in
  let edges_by_type := count_by EntryEdgeInfo.type edges in
  do llm <- extract_blocks_by_type (text "llm") ;
  do llm_blocks <- for_each llm (fun b => lift (llm_entry b)) ;
  do config_attrs <- read_config_attrs ;
  do extend <- extract_blocks_by_type (text "extend") ;
  do buttons <- extract_blocks_by_type (text "buttons") ;
  ret {| BotInfo.bot_name := lookup_key (text "bot_name") (attributes_other config_attrs);
         BotInfo.bot_id := lookup_key (text "bot_id") (attributes_other config_attrs);
         BotInfo.version_id := lookup_key (text "version_id") (attributes_other config_attrs);
         BotInfo.no_match_stub_answer :=
           lookup_key (text "no_match_stub_answer") (attributes_other config_attrs);
         BotInfo.request_ttl_in_seconds :=
           lookup_key (text "request_ttl_in_seconds") (attributes_other config_attrs);
         BotInfo.scenarios := scenarios;
         BotInfo.blocks_by_type := blocks_by_type;
         BotInfo.edges_by_type := edges_by_type;
         BotInfo.llm_blocks := llm_blocks;
         BotInfo.extend_blocks_count := length extend;
         BotInfo.button_blocks_count := length buttons |}.

(** An [llm] block whose ["model"], if present, is a mapping. *)
Definition llm_model_ok (b : block) : bool :=
  negb (str_eqb (get (block_type b) (text "unknown")) (text "llm"))
  || match model_name b with Some _ => true | None => false end.

(** The number of node entries of a configuration. *)
Definition node_entries (attrs : attributes) : nat := length (Raw.nodes_of_config attrs).

End Analyzer.

(** The summary [get_summary] builds when no step raises. *)
Definition summary_of (attrs : Config.attributes) : BotInfo.t :=
  let blocks := Shape.blocks_of attrs in
  let edges := Shape.edges_of attrs in
  let by_type (ty : str) :=
    filter (fun b => str_eqb (BlockInfo.type b) ty = true) blocks in
  {| BotInfo.bot_name := Analyzer.lookup_key (text "bot_name") (Config.attributes_other attrs);
     BotInfo.bot_id := Analyzer.lookup_key (text "bot_id") (Config.attributes_other attrs);
     BotInfo.version_id :=
       Analyzer.lookup_key (text "version_id") (Config.attributes_other attrs);
     BotInfo.no_match_stub_answer :=
       Analyzer.lookup_key (text "no_match_stub_answer") (Config.attributes_other attrs);
     BotInfo.request_ttl_in_seconds :=
       Analyzer.lookup_key (text "request_ttl_in_seconds") (Config.attributes_other attrs);
     BotInfo.scenarios := Shape.scenarios_of attrs;
     BotInfo.blocks_by_type := Analyzer.count_by BlockInfo.type blocks;
     BotInfo.edges_by_type := Analyzer.count_by EntryEdgeInfo.type edges;
     BotInfo.llm_blocks :=
       omap Analyzer.llm_entry (by_type (text "llm"));
     BotInfo.extend_blocks_count := length (by_type (text "extend"));
     BotInfo.button_blocks_count := length (by_type (text "buttons")) |}.

(** A configuration with an [llm] block whose [model] is a mapping, an
    [extend] block and a block without [type], in two scenarios. *)
Definition llm_block_entry : Config.block :=
  {| Config.block_type := Some (text "llm");
     Config.block_id := Some (text "b1");
     Config.block_other :=
       [ (text "model", Config.JDict [ (text "model_name", Config.JStr (text "gpt")) ]);
         (text "result_variable_name", Config.JStr (text "answer")) ] |}.

Definition summary_config : Config.config :=
  Shape.config_with
    [ Samples.a_scenario (text "main") None
        [ Samples.a_node (Some (text "n1"))
            [ llm_block_entry; Samples.a_block (Some (text "extend")) ];
          Samples.a_node (Some (text "n2")) [ Samples.a_block None ] ]
        [ Samples.an_edge (text "match") (text "hi") ];
      Samples.a_scenario (text "help") None
        [ Samples.a_node (Some (text "n3")) [] ] [] ].

(** The calls the hook makes for the [buttons_scenario] argument. *)
Definition buttons_scenario_calls (unicode_alnum : N -> bool)
    (loaded : option Config.config) (fixturenames : list str)
  : option (list Conftest.parametrize) :=
  filter (fun call => Conftest.argname call = text "buttons_scenario")
    <$> Conftest.pytest_generate_tests unicode_alnum loaded fixturenames.

(** * Properties *)

Import Utils.

(** ** Properties of the pattern-to-probe converter *)

Section UtilsProperties.
Import Re.

Lemma drop_while_split (p : N -> bool) (s : str) :
  exists pre, s = pre ++ drop_while p s /\ Forall (fun c => p c = true) pre.
Proof.
  induction s as [|c s IH]; simpl.
  - exists []. split; [reflexivity | constructor].
  - destruct (p c) eqn:Hc.
    + destruct IH as (pre & Heq & Hall).
      exists (c :: pre). split; [simpl; congruence | constructor; assumption].
    + exists []. split; [reflexivity | constructor].
Qed.

Lemma drop_while_head (p : N -> bool) (s : str) (c : N) :
  head (drop_while p s) = Some c -> p c = false.
Proof.
  induction s as [|d s IH]; simpl; [discriminate |].
  destruct (p d) eqn:Hd; [assumption |].
  simpl. intros [= <-]. assumption.
Qed.

Lemma char_in_single (x c : N) : char_in [x] c = true -> c = x.
Proof.
  unfold char_in; simpl. rewrite orb_false_r. apply N.eqb_eq.
Qed.

Lemma all_single_repeat (x : N) (pre : str) :
  Forall (fun c => char_in [x] c = true) pre -> pre = repeat x (length pre).
Proof.
  induction 1 as [|c pre Hc _ IH]; simpl; [reflexivity |].
  rewrite (char_in_single _ _ Hc). f_equal. assumption.
Qed.

Lemma head_rev_last (s : str) : head (rev s) = last s.
Proof.
  induction s as [|c s IH] using rev_ind; [reflexivity |].
  rewrite rev_app_distr, last_snoc. reflexivity.
Qed.

Lemma lstrip_split (x : N) (s : str) :
  exists i, s = repeat x i ++ lstrip [x] s /\ head (lstrip [x] s) <> Some x.
Proof.
  unfold lstrip.
  destruct (drop_while_split (char_in [x]) s) as (pre & Heq & Hall).
  exists (length pre). split.
  - rewrite <- (all_single_repeat _ _ Hall). assumption.
  - intros Hh. apply drop_while_head in Hh.
    unfold char_in in Hh; simpl in Hh. rewrite N.eqb_refl in Hh. discriminate.
Qed.

Lemma rstrip_split (x : N) (s : str) :
  exists j, s = rstrip [x] s ++ repeat x j /\ last (rstrip [x] s) <> Some x.
Proof.
  unfold rstrip.
  destruct (lstrip_split x (rev s)) as (j & Heq & Hh). unfold lstrip in *.
  exists j. split.
  - rewrite <- (rev_involutive s) at 1. rewrite Heq at 1.
    rewrite rev_app_distr. f_equal.
    clear. induction j as [|j IH]; simpl; [reflexivity |].
    rewrite IH. clear. induction j as [|j IH]; simpl; [reflexivity |].
    f_equal. assumption.
  - rewrite <- head_rev_last, rev_involutive. assumption.
Qed.

End UtilsProperties.

(** C1 (the code against its documented examples): the converter returns
    ["test"] for the empty pattern, but an optional-whitespace replacement
    that matches the empty string puts a space between all characters, so
    ["/start|начать|привет"] gives ["/ s t a r t"], ["^help$"] gives
    ["h e l p"], ["test.*value"] gives ["t e s t * v a l u e"] and the
    pattern backslash-d-plus gives ["d +"]; none of the last four is the
    documented ["/start"], ["help"], ["test value"] or ["1"]. *)
Theorem regex_to_sample_message_examples :
  regex_to_sample_message (text "") = text "test" /\
  regex_to_sample_message (text "/start|начать|привет") = text "/ s t a r t" /\
  regex_to_sample_message (text "^help$") = text "h e l p" /\
  regex_to_sample_message (text "test.*value") = text "t e s t * v a l u e" /\
  regex_to_sample_message (text "\d+") = text "d +" /\
  regex_to_sample_message (text "/start|начать|привет") <> text "/start" /\
  regex_to_sample_message (text "^help$") <> text "help" /\
  regex_to_sample_message (text "test.*value") <> text "test value" /\
  regex_to_sample_message (text "\d+") <> text "1".
Proof.
  repeat split; try (vm_compute; reflexivity); vm_compute; discriminate.
Qed.

(** The replacement responsible: [re.sub(r"\s*", " ", "help")]. *)
Example optional_whitespace_sub :
  Re.sub [(is_space, Re.Star)] (text " ") (text "help") = text " h e l p ".
Proof. vm_compute. reflexivity. Qed.

(** C2, as stated, fails: of two leading carets and two trailing dollars
    none is kept. *)
Lemma strip_anchors_keeps_none :
  strip_anchors (text "^^a$$") = text "a" /\
  strip_anchors (text "^^a$$") <> text "^a$" /\
  regex_to_sample_message (text "^^a$$") = text "a".
Proof.
  repeat split; try (vm_compute; reflexivity); vm_compute; discriminate.
Qed.

(** C2, amended: for every pattern the anchor-stripping step removes all the
    leading carets and, of what is left, all the trailing dollars: the
    pattern is some carets, then the stripped pattern, then some dollars, and
    the stripped pattern neither starts with a caret nor ends with a
    dollar. *)
Theorem strip_anchors_removes_all (pattern : str) :
  exists i j : nat,
    pattern = repeat caret i ++ strip_anchors pattern ++ repeat dollar j /\
    head (strip_anchors pattern) <> Some caret /\
    last (strip_anchors pattern) <> Some dollar.
Proof.
  unfold strip_anchors.
  destruct (lstrip_split caret pattern) as (i & Hi & Hhead).
  destruct (rstrip_split dollar (lstrip [caret] pattern)) as (j & Hj & Hlast).
  exists i, j. split; [| split].
  - rewrite <- Hj. assumption.
  - intros Hh. apply Hhead. rewrite Hj.
    destruct (rstrip [dollar] (lstrip [caret] pattern)); [discriminate | assumption].
  - assumption.
Qed.

(** ** Properties of the coverage tracker *)

Section TrackerProperties.
Import Tracker.

Lemma mark_tested_elements key b t :
  tested_elements (mark key b t) = {[ key ]} ∪ tested_elements t.
Proof. reflexivity. Qed.

Lemma mark_history key b t :
  history key (mark key b t) = history key t ++ [ {| passed := b |} ].
Proof. unfold history, mark; simpl. rewrite lookup_insert_eq. reflexivity. Qed.

Lemma mark_twice_tested_elements key b1 b2 t :
  tested_elements (mark key b2 (mark key b1 t)) = tested_elements (mark key b1 t).
Proof.
  rewrite !mark_tested_elements.
  rewrite (assoc_L (∪)), (union_idemp_L {[ key ]}). reflexivity.
Qed.

Lemma size_mark key b t :
  size (tested_elements (mark key b t)) =
  if decide (key ∈ tested_elements t)
  then size (tested_elements t) else S (size (tested_elements t)).
Proof.
  rewrite mark_tested_elements. destruct (decide _) as [Hin|Hnin].
  - f_equal. apply subseteq_union_1_L, singleton_subseteq_l, Hin.
  - rewrite size_union by (apply disjoint_singleton_l, Hnin).
    rewrite size_singleton. reflexivity.
Qed.

End TrackerProperties.

(** C7: for a freshly constructed tracker the summary for a total of 0 is
    returned and is total 0, tested 0, coverage percent 0 (the integer) and
    untested 0; and for every tracker and every total, zero included, the
    summary is returned: the division is never reached with a zero total. *)
Theorem coverage_summary_zero_total
    {float : Type} (int_div : Z -> Z -> float) (float_mul : float -> Z -> float)
    (float_round : float -> Z -> float) :
  Tracker.get_coverage_summary int_div float_mul float_round 0 Tracker.init
  = Some {| Tracker.sum_total_elements := 0;
            Tracker.sum_tested_elements := 0;
            Tracker.sum_coverage_percent := Tracker.Int 0;
            Tracker.sum_untested_elements := 0 |}
  /\ forall (total : Z) (t : Tracker.CoverageTracker),
       is_Some (Tracker.get_coverage_summary int_div float_mul float_round total t).
Proof.
  split; [reflexivity |].
  intros total t. unfold Tracker.get_coverage_summary, Tracker.true_div.
  destruct (0 <? total)%Z eqn:Hpos; simpl; [| eauto].
  apply Z.ltb_lt in Hpos.
  destruct (total =? 0)%Z eqn:Hz; [apply Z.eqb_eq in Hz; lia | simpl; eauto].
Qed.

(** C8, as stated, fails: on a tracker that already holds one record for the
    path, two more marks leave a history of length 3, not 2. *)
Lemma mark_twice_history_three :
  let path := text "scenarios[0].nodes[n].blocks[0]" in
  let t := Tracker.mark_block_tested path true Tracker.init in
  let t' := Tracker.mark_block_tested path true (Tracker.mark_block_tested path true t) in
  length (Tracker.history (text "block:" ++ path) t') = 3
  /\ length (Tracker.history (text "block:" ++ path) t') <> 2.
Proof.
  intros path t t'. subst t t'. unfold Tracker.mark_block_tested.
  generalize (text "block:" ++ path). intros key.
  rewrite !mark_history. rewrite !length_app.
  unfold Tracker.history, Tracker.init. cbn [Tracker.test_results].
  rewrite lookup_empty. cbn. split; [reflexivity | discriminate].
Qed.

(** C8, amended: for every tracker state and every block path, marking the
    path tested twice leaves the tested-elements set as one mark leaves it,
    with the path's key in it once (the tested count is that of the state
    before if the key was in the set, one more otherwise), and appends the
    two records to the key's history, which is 2 longer than before; on a
    fresh tracker the tested count is 1 and the history has length 2. *)
Theorem mark_block_tested_twice
    (t : Tracker.CoverageTracker) (block_path : str) (p1 p2 : bool) :
  let key := text "block:" ++ block_path in
  let once := Tracker.mark_block_tested block_path p1 t in
  let twice := Tracker.mark_block_tested block_path p2 once in
  key ∈ Tracker.tested_elements twice
  /\ Tracker.tested_elements twice = Tracker.tested_elements once
  /\ size (Tracker.tested_elements twice)
     = (if decide (key ∈ Tracker.tested_elements t)
        then size (Tracker.tested_elements t)
        else S (size (Tracker.tested_elements t)))
  /\ Tracker.history key twice
     = Tracker.history key t ++ [ Tracker.Build_test_record p1; Tracker.Build_test_record p2 ]
  /\ length (Tracker.history key twice) = length (Tracker.history key t) + 2
  /\ size (Tracker.tested_elements
             (Tracker.mark_block_tested block_path p2
                (Tracker.mark_block_tested block_path p1 Tracker.init))) = 1
  /\ length (Tracker.history key
               (Tracker.mark_block_tested block_path p2
                  (Tracker.mark_block_tested block_path p1 Tracker.init))) = 2.
Proof.
  cbv zeta. unfold Tracker.mark_block_tested.
  generalize (text "block:" ++ block_path). intros key.
  rewrite !mark_twice_tested_elements, !mark_history, !size_mark.
  rewrite <- !app_assoc. cbn [app].
  split; [rewrite mark_tested_elements; apply elem_of_union_l, elem_of_singleton, eq_refl |].
  split; [reflexivity |]. split; [reflexivity |]. split; [reflexivity |].
  split; [rewrite length_app; reflexivity |].
  unfold Tracker.history, Tracker.init. cbn [Tracker.tested_elements Tracker.test_results].
  rewrite lookup_empty. split; [| reflexivity].
  destruct (decide (key ∈ (∅ : gset str))) as [Hin|_]; [| reflexivity].
  exfalso. exact (not_elem_of_empty key Hin).
Qed.

(** ** Properties of the element extractor *)

Section ExtractorProperties.
Import Config Extractor Shape.

Lemma for_each_pure {A B : Type} (l : list A) (body : A -> method B) (f : A -> B)
    (self : ElementExtractor) :
  (forall a, a ∈ l -> body a self = (Some (f a), self)) ->
  for_each l body self = (Some (map f l), self).
Proof.
  induction l as [|a l IH]; intros Hbody; simpl; [reflexivity |].
  unfold bind. rewrite (Hbody a) by constructor.
  rewrite IH by (intros b Hb; apply Hbody; constructor; assumption).
  reflexivity.
Qed.

Lemma extract_blocks_run self attrs :
  config_attrs self = Some attrs ->
  extract_blocks self = (Some (blocks_of attrs), self).
Proof.
  intros H. unfold extract_blocks, bind, read_config_attrs. rewrite H. reflexivity.
Qed.

Lemma extract_entry_edges_run self attrs :
  config_attrs self = Some attrs ->
  extract_entry_edges self = (Some (edges_of attrs), self).
Proof.
  intros H. unfold extract_entry_edges, bind, read_config_attrs. rewrite H. reflexivity.
Qed.

Lemma extract_entry_edges_by_type_run self attrs ty :
  config_attrs self = Some attrs ->
  extract_entry_edges_by_type ty self
  = (Some (filter (fun e => str_eqb (EntryEdgeInfo.type e) ty = true) (edges_of attrs)), self).
Proof.
  intros H. unfold extract_entry_edges_by_type, bind.
  rewrite (extract_entry_edges_run _ _ H). reflexivity.
Qed.

Lemma extract_nodes_run self attrs :
  config_attrs self = Some attrs ->
  extract_nodes self = (Some (nodes_of attrs), self).
Proof.
  intros H. unfold extract_nodes, bind, read_config_attrs. rewrite H.
  rewrite (for_each_pure _ _ (fun '(s_idx, sc) => nodes_of_scenario attrs s_idx sc)).
  - reflexivity.
  - intros [s_idx sc] _.
    rewrite (for_each_pure _ _
               (fun '(n_idx, nd) => node_info s_idx sc n_idx nd (blocks_of attrs))).
    + reflexivity.
    + intros [n_idx nd] _. unfold bind.
      rewrite (extract_blocks_run _ _ H). reflexivity.
Qed.

Lemma extract_scenarios_run self attrs :
  config_attrs self = Some attrs ->
  extract_scenarios self = (Some (scenarios_of attrs), self).
Proof.
  intros H. unfold extract_scenarios, bind at 1. unfold read_config_attrs. rewrite H.
  apply for_each_pure. intros [s_idx sc] _. unfold bind.
  rewrite (extract_entry_edges_run _ _ H), (extract_nodes_run _ _ H). reflexivity.
Qed.

Lemma on_config_run {A : Type} (c : config) (m : method A) :
  on_config c m = fst (m {| config_attrs := Some (extract_bot_attributes c) |}).
Proof. reflexivity. Qed.

Lemma enumerate_lookup {A : Type} (l : list A) (i : nat) :
  enumerate l !! i = pair i <$> l !! i.
Proof. unfold enumerate. apply list_lookup_imap. Qed.

Lemma scenarios_of_lookup attrs scs i sc :
  scenarios attrs = Some scs -> scs !! i = Some sc ->
  scenarios_of attrs !! i
  = Some (scenario_info i sc (edges_of attrs) (nodes_of attrs)).
Proof.
  intros Hs Hi. unfold scenarios_of. rewrite Hs. simpl.
  change (map ?f ?l) with (f <$> l).
  rewrite list_lookup_fmap, enumerate_lookup, Hi. reflexivity.
Qed.

Lemma scenarios_of_length attrs :
  length (scenarios_of attrs) = length (get (scenarios attrs) []).
Proof. unfold scenarios_of, enumerate. rewrite length_map, length_imap. reflexivity. Qed.

Lemma enumerate_elem {A : Type} (l : list A) (i : nat) (a : A) :
  l !! i = Some a -> (i, a) ∈ enumerate l.
Proof.
  intros H. apply list_elem_of_lookup. exists i. rewrite enumerate_lookup, H. reflexivity.
Qed.

Lemma edges_of_scenario_slug i sc e :
  e ∈ edges_of_scenario i sc -> EntryEdgeInfo.scenario_slug e = slug_of sc.
Proof.
  unfold edges_of_scenario. change (map ?f ?l) with (f <$> l).
  intros H. apply list_elem_of_fmap in H as ([e_idx raw] & -> & _). reflexivity.
Qed.

Lemma edges_of_scenario_in attrs scs i sc e :
  scenarios attrs = Some scs -> scs !! i = Some sc ->
  e ∈ edges_of_scenario i sc -> e ∈ edges_of attrs.
Proof.
  intros Hs Hi He. unfold edges_of. rewrite Hs. simpl.
  apply list_elem_of_In, in_flat_map. exists (i, sc). split.
  - apply list_elem_of_In, enumerate_elem, Hi.
  - apply list_elem_of_In, He.
Qed.

Lemma nodes_of_scenario_slug attrs i sc n :
  n ∈ nodes_of_scenario attrs i sc -> NodeInfo.scenario_slug n = slug_of sc.
Proof.
  unfold nodes_of_scenario. change (map ?f ?l) with (f <$> l).
  intros H. apply list_elem_of_fmap in H as ([n_idx raw] & -> & _). reflexivity.
Qed.

Lemma nodes_of_scenario_in attrs scs i sc n :
  scenarios attrs = Some scs -> scs !! i = Some sc ->
  n ∈ nodes_of_scenario attrs i sc -> n ∈ nodes_of attrs.
Proof.
  intros Hs Hi Hn. unfold nodes_of. rewrite Hs. simpl.
  apply list_elem_of_In, in_concat. exists (nodes_of_scenario attrs i sc). split.
  - apply in_map_iff. exists (i, sc). split; [reflexivity |].
    apply list_elem_of_In, enumerate_elem, Hi.
  - apply list_elem_of_In, Hn.
Qed.

(** Elements of a scenario are attached to every record with its slug. *)
Lemma scenario_info_attaches attrs scs i j si sj :
  scenarios attrs = Some scs -> scs !! j = Some sj -> slug_of si = slug_of sj ->
  let info := scenario_info i si (edges_of attrs) (nodes_of attrs) in
  (forall e, e ∈ edges_of_scenario j sj -> e ∈ ScenarioInfo.entry_edges info)
  /\ (forall n, n ∈ nodes_of_scenario attrs j sj -> n ∈ ScenarioInfo.nodes info).
Proof.
  intros Hs Hj Hslug info. subst info. unfold scenario_info; simpl. split.
  - intros e He. apply list_elem_of_filter. split.
    + unfold str_eqb. apply bool_decide_eq_true.
      rewrite (edges_of_scenario_slug _ _ _ He). congruence.
    + eapply edges_of_scenario_in; eassumption.
  - intros n Hn. apply list_elem_of_filter. split.
    + unfold str_eqb. apply bool_decide_eq_true.
      rewrite (nodes_of_scenario_slug _ _ _ _ Hn). congruence.
    + eapply nodes_of_scenario_in; eassumption.
Qed.

(** For a node that has an [id], the node's blocks are the blocks of the
    full extraction with the node's id. *)
(** What is attached to a record: exactly the elements of the entries that
    have its slug, wherever they stand. *)
Lemma scenario_info_attached attrs scs i si :
  scenarios attrs = Some scs ->
  let info := scenario_info i si (edges_of attrs) (nodes_of attrs) in
  (forall e, e ∈ ScenarioInfo.entry_edges info <->
     exists k sk, scs !! k = Some sk /\ slug_of sk = slug_of si
                  /\ e ∈ edges_of_scenario k sk)
  /\ (forall n, n ∈ ScenarioInfo.nodes info <->
        exists k sk, scs !! k = Some sk /\ slug_of sk = slug_of si
                     /\ n ∈ nodes_of_scenario attrs k sk).
Proof.
  intros Hs info.
  assert (Hat : forall k (sk : scenario), (k, sk) ∈ enumerate scs -> scs !! k = Some sk).
  { intros k sk H. apply list_elem_of_lookup in H as [m Hm].
    rewrite enumerate_lookup in Hm.
    destruct (scs !! m) as [x|] eqn:Hx; [| discriminate Hm].
    injection Hm as <- <-. exact Hx. }
  split.
  - intros e. split.
    + intros He. subst info. unfold scenario_info in He; cbn [ScenarioInfo.entry_edges] in He.
      apply list_elem_of_filter in He as [Hslug He].
      unfold str_eqb in Hslug. apply bool_decide_eq_true in Hslug.
      unfold edges_of in He. rewrite Hs in He. cbn [get] in He.
      apply list_elem_of_In, in_flat_map in He as ([k sk] & Hk & He).
      apply list_elem_of_In in Hk, He.
      exists k, sk. split; [apply Hat, Hk |]. split; [| exact He].
      rewrite <- (edges_of_scenario_slug _ _ _ He). exact Hslug.
    + intros (k & sk & Hk & Hslug & He).
      exact (proj1 (scenario_info_attaches attrs scs i k si sk Hs Hk (eq_sym Hslug)) e He).
  - intros n. split.
    + intros Hn. subst info. unfold scenario_info in Hn; cbn [ScenarioInfo.nodes] in Hn.
      apply list_elem_of_filter in Hn as [Hslug Hn].
      unfold str_eqb in Hslug. apply bool_decide_eq_true in Hslug.
      unfold nodes_of in Hn. rewrite Hs in Hn. cbn [get] in Hn.
      apply list_elem_of_In, in_concat in Hn as (ns & Hns & Hn).
      apply in_map_iff in Hns as ([k sk] & <- & Hk).
      apply list_elem_of_In in Hk, Hn.
      exists k, sk. split; [apply Hat, Hk |]. split; [| exact Hn].
      rewrite <- (nodes_of_scenario_slug _ _ _ _ Hn). exact Hslug.
    + intros (k & sk & Hk & Hslug & Hn).
      exact (proj2 (scenario_info_attaches attrs scs i k si sk Hs Hk (eq_sym Hslug)) n Hn).
Qed.

Lemma node_info_blocks_with_id s_idx sc n_idx nd i blocks :
  node_id nd = Some i ->
  let info := node_info s_idx sc n_idx nd blocks in
  NodeInfo.blocks info
  = filter (fun b => BlockInfo.node_id b = NodeInfo.node_id info) blocks.
Proof.
  intros Hid info. subst info. unfold node_info; simpl. rewrite Hid; simpl.
  apply list_filter_iff. intros b. unfold str_eqb. apply bool_decide_eq_true.
Qed.

End ExtractorProperties.

(** C5: on every loaded configuration, two successive calls of
    [extract_blocks] both return, the two sequences have the same length and
    the same element at every index, and the calls leave the extractor as
    [set_config_attr] left it. *)
Theorem extract_blocks_twice_equal (c : Config.config) (fresh : Extractor.ElementExtractor) :
  let self := snd (Extractor.set_config_attr c fresh) in
  exists first second : list BlockInfo.t,
    Extractor.extract_blocks self = (Some first, self)
    /\ Extractor.extract_blocks (snd (Extractor.extract_blocks self)) = (Some second, self)
    /\ length first = length second
    /\ (forall i : nat, first !! i = second !! i)
    /\ first = second.
Proof.
  intros self.
  assert (Hattrs : Extractor.config_attrs self = Some (Extractor.extract_bot_attributes c))
    by reflexivity.
  exists (Shape.blocks_of (Extractor.extract_bot_attributes c)),
         (Shape.blocks_of (Extractor.extract_bot_attributes c)).
  rewrite !(extract_blocks_run _ _ Hattrs). simpl.
  rewrite (extract_blocks_run _ _ Hattrs). repeat split.
Qed.

(** C3 (the code at a node without [id]): for the configuration with one
    node that has no [id] and holds one block, [extract_nodes] returns the
    node with the id [""] and an empty block list, while the full block
    extraction filtered by that id is the node's one block; the two
    disagree. *)
Theorem extract_nodes_idless_node_blocks :
  exists (n : NodeInfo.t) (b : BlockInfo.t),
    Extractor.on_config Samples.idless_node_config Extractor.extract_nodes = Some [n]
    /\ Extractor.on_config Samples.idless_node_config Extractor.extract_blocks = Some [b]
    /\ NodeInfo.node_id n = text ""
    /\ BlockInfo.node_id b = text ""
    /\ NodeInfo.blocks n = []
    /\ filter (fun b' => BlockInfo.node_id b' = NodeInfo.node_id n) [b] = [b]
    /\ NodeInfo.blocks n
       <> filter (fun b' => BlockInfo.node_id b' = NodeInfo.node_id n) [b].
Proof.
  eexists. eexists.
  split; [vm_compute; reflexivity |].
  split; [vm_compute; reflexivity |].
  repeat split; try discriminate.
Qed.

(** C9: in every configuration, a scenario entry without an [id] adds
    nothing to the set of scenario ids, whose members are the ids of the
    other entries, and scenario extraction still returns the record of the
    entry at its index, with its path, no id, its name, slug and parent id,
    and with the entry's own edges and nodes attached. *)
Theorem scenario_without_id_contributes_nothing
    (c : Config.config) (before after : list Config.scenario) (sc : Config.scenario) :
  Config.scenarios (Extractor.extract_bot_attributes c) = Some (before ++ sc :: after) ->
  Config.scenario_id sc = None ->
  exists (ids : gset str) (infos : list ScenarioInfo.t) (info : ScenarioInfo.t),
    Extractor.on_config c Extractor.get_all_scenario_ids = Some ids
    /\ (forall i : str,
          i ∈ ids <-> exists other, other ∈ before ++ after
                                    /\ Config.scenario_id other = Some i)
    /\ Extractor.on_config c Extractor.extract_scenarios = Some infos
    /\ length infos = length (before ++ sc :: after)
    /\ infos !! length before = Some info
    /\ ScenarioInfo.path info = text "scenarios[" ++ decimal (length before) ++ text "]"
    /\ ScenarioInfo.scenario_id info = None
    /\ ScenarioInfo.name info = Config.get (Config.scenario_name sc) []
    /\ ScenarioInfo.slug info = Extractor.slug_of sc
    /\ ScenarioInfo.parent_scenario_id info = Config.scenario_parent_scenario_id sc
    /\ (forall e, e ∈ Shape.edges_of_scenario (length before) sc ->
                  e ∈ ScenarioInfo.entry_edges info)
    /\ (forall n, n ∈ Shape.nodes_of_scenario (Extractor.extract_bot_attributes c)
                        (length before) sc ->
                  n ∈ ScenarioInfo.nodes info).
Proof.
  intros Hscs Hid.
  set (attrs := Extractor.extract_bot_attributes c) in *.
  assert (Hat : (before ++ sc :: after) !! length before = Some sc)
    by apply list_lookup_middle, eq_refl.
  exists (list_to_set (omap Config.scenario_id (before ++ sc :: after))),
         (Shape.scenarios_of attrs),
         (Extractor.scenario_info (length before) sc
            (Shape.edges_of attrs) (Shape.nodes_of attrs)).
  split.
  { rewrite on_config_run. fold attrs.
    unfold Extractor.get_all_scenario_ids, Extractor.bind, Extractor.read_config_attrs.
    simpl. rewrite Hscs. reflexivity. }
  split.
  { intros i. rewrite elem_of_list_to_set, !list_elem_of_omap. split.
    - intros (other & Hin & Hother). exists other. split; [| assumption].
      apply elem_of_app in Hin as [Hin | Hin]; [apply elem_of_app; left; exact Hin |].
      apply elem_of_cons in Hin as [-> | Hin]; [congruence |].
      apply elem_of_app; right; exact Hin.
    - intros (other & Hin & Hother). exists other. split; [| assumption].
      apply elem_of_app in Hin as [Hin | Hin]; apply elem_of_app; [left; exact Hin |].
      right. apply elem_of_cons. right. exact Hin. }
  split.
  { rewrite on_config_run. fold attrs.
    rewrite (extract_scenarios_run _ attrs) by reflexivity. reflexivity. }
  split.
  { rewrite scenarios_of_length, Hscs. reflexivity. }
  split.
  { apply scenarios_of_lookup with (scs := before ++ sc :: after); assumption. }
  do 5 (split; [first [reflexivity | assumption] |]).
  apply scenario_info_attaches with (scs := before ++ sc :: after); auto.
Qed.

Lemma scenario_without_id_contributes_nothing_witness :
  Config.scenarios (Extractor.extract_bot_attributes Samples.idless_scenario_config)
  = Some ([Samples.first_with_id] ++ Samples.second_without_id :: [])
  /\ Config.scenario_id Samples.second_without_id = None
  /\ exists (ids : gset str) (infos : list ScenarioInfo.t) (info : ScenarioInfo.t),
    Extractor.on_config Samples.idless_scenario_config Extractor.get_all_scenario_ids
    = Some ids
    /\ (forall i : str,
          i ∈ ids <-> exists other, other ∈ [Samples.first_with_id] ++ []
                                    /\ Config.scenario_id other = Some i)
    /\ Extractor.on_config Samples.idless_scenario_config Extractor.extract_scenarios
       = Some infos
    /\ length infos = length ([Samples.first_with_id] ++ Samples.second_without_id :: [])
    /\ infos !! length [Samples.first_with_id] = Some info
    /\ ScenarioInfo.path info
       = text "scenarios[" ++ decimal (length [Samples.first_with_id]) ++ text "]"
    /\ ScenarioInfo.scenario_id info = None
    /\ ScenarioInfo.name info
       = Config.get (Config.scenario_name Samples.second_without_id) []
    /\ ScenarioInfo.slug info = Extractor.slug_of Samples.second_without_id
    /\ ScenarioInfo.parent_scenario_id info
       = Config.scenario_parent_scenario_id Samples.second_without_id
    /\ (forall e, e ∈ Shape.edges_of_scenario (length [Samples.first_with_id])
                        Samples.second_without_id ->
                  e ∈ ScenarioInfo.entry_edges info)
    /\ (forall n, n ∈ Shape.nodes_of_scenario
                        (Extractor.extract_bot_attributes Samples.idless_scenario_config)
                        (length [Samples.first_with_id]) Samples.second_without_id ->
                  n ∈ ScenarioInfo.nodes info).
Proof.
  split; [reflexivity |]. split; [reflexivity |].
  apply (scenario_without_id_contributes_nothing Samples.idless_scenario_config
           [Samples.first_with_id] [] Samples.second_without_id); reflexivity.
Defined.

(** C10: in every configuration, when two scenario entries have equal
    derived slugs, scenario extraction returns a record for each of them at
    its index, with the path of that index and the id and the derived slug
    of its entry, and the entry-edge list and the node list of each record
    contain the entry edges and the nodes of both entries.  Attachment is by
    slug equality and not by position: what a record lists is exactly the
    entry edges and the nodes of the entries, at any index, whose derived
    slug is the record's, so that the two records list the same edges and
    the same nodes and nothing of an entry with another slug. *)
Theorem scenarios_with_equal_slugs_share_elements
    (c : Config.config) (scs : list Config.scenario) (i j : nat)
    (si sj : Config.scenario) :
  Config.scenarios (Extractor.extract_bot_attributes c) = Some scs ->
  i <> j -> scs !! i = Some si -> scs !! j = Some sj ->
  Extractor.slug_of si = Extractor.slug_of sj ->
  exists (infos : list ScenarioInfo.t) (ri rj : ScenarioInfo.t),
    Extractor.on_config c Extractor.extract_scenarios = Some infos
    /\ length infos = length scs
    /\ infos !! i = Some ri /\ infos !! j = Some rj
    /\ (forall e, e ∈ Shape.edges_of_scenario i si ∨ e ∈ Shape.edges_of_scenario j sj ->
                  e ∈ ScenarioInfo.entry_edges ri /\ e ∈ ScenarioInfo.entry_edges rj)
    /\ (forall n, n ∈ Shape.nodes_of_scenario (Extractor.extract_bot_attributes c) i si
                  ∨ n ∈ Shape.nodes_of_scenario (Extractor.extract_bot_attributes c) j sj ->
                  n ∈ ScenarioInfo.nodes ri /\ n ∈ ScenarioInfo.nodes rj)
    /\ ScenarioInfo.path ri = text "scenarios[" ++ decimal i ++ text "]"
    /\ ScenarioInfo.path rj = text "scenarios[" ++ decimal j ++ text "]"
    /\ ScenarioInfo.scenario_id ri = Config.scenario_id si
    /\ ScenarioInfo.scenario_id rj = Config.scenario_id sj
    /\ ScenarioInfo.slug ri = Extractor.slug_of si
    /\ ScenarioInfo.slug rj = Extractor.slug_of sj
    /\ (forall e, e ∈ ScenarioInfo.entry_edges ri <->
          exists k sk, scs !! k = Some sk
                       /\ Extractor.slug_of sk = ScenarioInfo.slug ri
                       /\ e ∈ Shape.edges_of_scenario k sk)
    /\ (forall n, n ∈ ScenarioInfo.nodes ri <->
          exists k sk, scs !! k = Some sk
                       /\ Extractor.slug_of sk = ScenarioInfo.slug ri
                       /\ n ∈ Shape.nodes_of_scenario (Extractor.extract_bot_attributes c) k sk)
    /\ ScenarioInfo.entry_edges rj = ScenarioInfo.entry_edges ri
    /\ ScenarioInfo.nodes rj = ScenarioInfo.nodes ri.
Proof.
  intros Hscs _ Hi Hj Hslug.
  set (attrs := Extractor.extract_bot_attributes c) in *.
  exists (Shape.scenarios_of attrs),
         (Extractor.scenario_info i si (Shape.edges_of attrs) (Shape.nodes_of attrs)),
         (Extractor.scenario_info j sj (Shape.edges_of attrs) (Shape.nodes_of attrs)).
  split.
  { rewrite on_config_run. fold attrs.
    rewrite (extract_scenarios_run _ attrs) by reflexivity. reflexivity. }
  split; [rewrite scenarios_of_length, Hscs; reflexivity |].
  split; [eapply scenarios_of_lookup; eassumption |].
  split; [eapply scenarios_of_lookup; eassumption |].
  destruct (scenario_info_attaches attrs scs i i si si Hscs Hi eq_refl) as [Eii Nii].
  destruct (scenario_info_attaches attrs scs i j si sj Hscs Hj Hslug) as [Eij Nij].
  destruct (scenario_info_attaches attrs scs j i sj si Hscs Hi (eq_sym Hslug)) as [Eji Nji].
  destruct (scenario_info_attaches attrs scs j j sj sj Hscs Hj eq_refl) as [Ejj Njj].
  split; [intros e [He | He]; split; auto |].
  split; [intros n [Hn | Hn]; split; auto |].
  do 6 (split; [reflexivity |]).
  destruct (scenario_info_attached attrs scs i si Hscs) as [Hedges Hnodes].
  split; [exact Hedges |]. split; [exact Hnodes |].
  unfold Extractor.scenario_info; cbn [ScenarioInfo.entry_edges ScenarioInfo.nodes].
  rewrite Hslug. split; reflexivity.
Qed.

Lemma scenarios_with_equal_slugs_share_elements_witness :
  Config.scenarios (Extractor.extract_bot_attributes Samples.shared_slug_config) = Some [Samples.faq_one; Samples.second_without_id; Samples.faq_two]
  /\ 0 <> 2
  /\ [Samples.faq_one; Samples.second_without_id; Samples.faq_two] !! 0 = Some Samples.faq_one
  /\ [Samples.faq_one; Samples.second_without_id; Samples.faq_two] !! 2 = Some Samples.faq_two
  /\ Extractor.slug_of Samples.faq_one = Extractor.slug_of Samples.faq_two
  /\ exists (infos : list ScenarioInfo.t) (ri rj : ScenarioInfo.t),
    Extractor.on_config Samples.shared_slug_config Extractor.extract_scenarios = Some infos
    /\ length infos = length [Samples.faq_one; Samples.second_without_id; Samples.faq_two]
    /\ infos !! 0 = Some ri /\ infos !! 2 = Some rj
    /\ (forall e, e ∈ Shape.edges_of_scenario 0 Samples.faq_one
                  ∨ e ∈ Shape.edges_of_scenario 2 Samples.faq_two ->
                  e ∈ ScenarioInfo.entry_edges ri /\ e ∈ ScenarioInfo.entry_edges rj)
    /\ (forall n, n ∈ Shape.nodes_of_scenario (Extractor.extract_bot_attributes Samples.shared_slug_config)
                        0 Samples.faq_one
                  ∨ n ∈ Shape.nodes_of_scenario (Extractor.extract_bot_attributes Samples.shared_slug_config)
                        2 Samples.faq_two ->
                  n ∈ ScenarioInfo.nodes ri /\ n ∈ ScenarioInfo.nodes rj)
    /\ ScenarioInfo.path ri = text "scenarios[" ++ decimal 0 ++ text "]"
    /\ ScenarioInfo.path rj = text "scenarios[" ++ decimal 2 ++ text "]"
    /\ ScenarioInfo.scenario_id ri = Config.scenario_id Samples.faq_one
    /\ ScenarioInfo.scenario_id rj = Config.scenario_id Samples.faq_two
    /\ ScenarioInfo.slug ri = Extractor.slug_of Samples.faq_one
    /\ ScenarioInfo.slug rj = Extractor.slug_of Samples.faq_two
    /\ (forall e, e ∈ ScenarioInfo.entry_edges ri <->
          exists k sk, [Samples.faq_one; Samples.second_without_id; Samples.faq_two] !! k = Some sk
                       /\ Extractor.slug_of sk = ScenarioInfo.slug ri
                       /\ e ∈ Shape.edges_of_scenario k sk)
    /\ (forall n, n ∈ ScenarioInfo.nodes ri <->
          exists k sk, [Samples.faq_one; Samples.second_without_id; Samples.faq_two] !! k = Some sk
                       /\ Extractor.slug_of sk = ScenarioInfo.slug ri
                       /\ n ∈ Shape.nodes_of_scenario (Extractor.extract_bot_attributes Samples.shared_slug_config) k sk)
    /\ ScenarioInfo.entry_edges rj = ScenarioInfo.entry_edges ri
    /\ ScenarioInfo.nodes rj = ScenarioInfo.nodes ri.
Proof.
  split; [reflexivity |]. split; [discriminate |].
  split; [reflexivity |]. split; [reflexivity |]. split; [reflexivity |].
  apply (scenarios_with_equal_slugs_share_elements Samples.shared_slug_config
           [Samples.faq_one; Samples.second_without_id; Samples.faq_two]
           0 2 Samples.faq_one Samples.faq_two);
    first [reflexivity | discriminate].
Defined.

(** ** Properties of the dynamic parametrization *)

Section RegexProperties.
Import Re.

(** Matching consults a class only on the characters of the subject. *)
Lemma match_here_ext (Q : N -> Prop) (re re' : regex) :
  Forall2 (fun it it' => it.2 = it'.2 /\ forall c, Q c -> it.1 c = it'.1 c) re re' ->
  forall s, Forall Q s -> match_here re s = match_here re' s.
Proof.
  induction 1 as [|[p q] [p' q'] re re' [Hq Hp] _ IH]; intros s Hs; [reflexivity |].
  simpl in Hq, Hp. subst q'.
  assert (Hgreedy : forall t, Forall Q t ->
    (fix greedy (s : str) : option nat :=
       match s with
       | c :: s' =>
           if p c then
             match greedy s' with
             | Some n => Some (S n)
             | None => match_here re s
             end
           else match_here re s
       | [] => match_here re s
       end) t
    = (fix greedy (s : str) : option nat :=
       match s with
       | c :: s' =>
           if p' c then
             match greedy s' with
             | Some n => Some (S n)
             | None => match_here re' s
             end
           else match_here re' s
       | [] => match_here re' s
       end) t).
  { induction t as [|c t IHt]; intros Ht.
    - apply IH. constructor.
    - inversion Ht as [|? ? Hc Ht']; subst.
      rewrite (Hp c Hc), (IHt Ht'), (IH (c :: t) Ht). reflexivity. }
  cbn [match_here]. destruct q.
  - destruct s as [|c s]; [reflexivity |].
    inversion Hs as [|? ? Hc Hs']; subst.
    rewrite (Hp c Hc), (IH s Hs'). reflexivity.
  - destruct s as [|c s]; [reflexivity |].
    inversion Hs as [|? ? Hc Hs']; subst.
    rewrite (Hp c Hc), (Hgreedy s Hs'). reflexivity.
  - apply Hgreedy, Hs.
Qed.

Lemma findall_scan_ext (Q : N -> Prop) (re re' : regex) :
  Forall2 (fun it it' => it.2 = it'.2 /\ forall c, Q c -> it.1 c = it'.1 c) re re' ->
  forall s skip, Forall Q s -> findall_scan re skip s = findall_scan re' skip s.
Proof.
  intros Hre. induction s as [|c s IH]; intros skip Hs.
  - destruct skip; cbn [findall_scan]; [| reflexivity].
    rewrite (match_here_ext Q re re' Hre [] Hs). reflexivity.
  - inversion Hs as [|? ? Hc Hs']; subst.
    destruct skip; cbn [findall_scan]; [| apply IH, Hs'].
    rewrite (match_here_ext Q re re' Hre (c :: s) Hs).
    destruct (match_here re' (c :: s)) as [[|n]|]; rewrite ?IH by assumption; reflexivity.
Qed.

End RegexProperties.

(** The scans on the examples of the [re] documentation. *)
Example sub_empty_matches :
  Re.sub [(Re.lit 120%N, Re.Star)] (text "-") (text "abxd") = text "-a-b--d-".
Proof. vm_compute. reflexivity. Qed.

Example findall_empty_matches :
  Re.findall [(Re.lit 120%N, Re.Star)] (text "axxb") = [text ""; text "xx"; text ""; text ""].
Proof. vm_compute. reflexivity. Qed.

Example text_decodes_utf8 :
  text "привет" = [1087; 1088; 1080; 1074; 1077; 1090]%N.
Proof. vm_compute. reflexivity. Qed.

Section ConftestProperties.
Import Config Extractor Shape Conftest.

Lemma word_class_table_free (unicode_alnum : N -> bool) (c : N) :
  table_free c -> word_class unicode_alnum c = word_class Samples.no_unicode_alnum c.
Proof.
  unfold table_free, word_class, is_word, Samples.no_unicode_alnum.
  destruct (c <? 128)%N; [reflexivity |].
  intros [Hc | Hc]; [discriminate |].
  destruct (unicode_alnum c); [| reflexivity].
  rewrite Hc. reflexivity.
Qed.

Lemma make_test_id_table_free (unicode_alnum : N -> bool) (pattern : str) (index : nat) :
  Forall table_free pattern ->
  _make_test_id unicode_alnum pattern index
  = _make_test_id Samples.no_unicode_alnum pattern index.
Proof.
  intros H. unfold _make_test_id, Re.findall.
  rewrite (findall_scan_ext table_free _ [(word_class Samples.no_unicode_alnum, Re.Plus)]);
    [reflexivity | | assumption].
  constructor; [| constructor]. split; [reflexivity |].
  intros c Hc. apply word_class_table_free, Hc.
Qed.

Lemma make_test_id_privet unicode_alnum :
  _make_test_id unicode_alnum (text "привет") 0 = text "match_0_привет".
Proof.
  rewrite make_test_id_table_free; [vm_compute; reflexivity |].
  vm_compute. repeat (constructor; [first [left; reflexivity | right; reflexivity] |]).
  constructor.
Qed.

Lemma make_test_id_start unicode_alnum :
  _make_test_id unicode_alnum (text "/start") 1 = text "match_1_start".
Proof.
  rewrite make_test_id_table_free; [vm_compute; reflexivity |].
  vm_compute. repeat (constructor; [first [left; reflexivity | right; reflexivity] |]).
  constructor.
Qed.

Lemma make_test_id_help_advice unicode_alnum :
  _make_test_id unicode_alnum (text "помощь совет") 2 = text "match_2_помощь_совет".
Proof.
  rewrite make_test_id_table_free; [vm_compute; reflexivity |].
  vm_compute. repeat (constructor; [first [left; reflexivity | right; reflexivity] |]).
  constructor.
Qed.

End ConftestProperties.

Section HookProperties.
Import Config Extractor Shape Conftest.

Lemma unknown_is_not_match : str_eqb (text "unknown") (text "match") = false.
Proof. vm_compute. reflexivity. Qed.

Lemma edge_info_is_match s_idx sc e_idx e :
  str_eqb (EntryEdgeInfo.type (edge_info s_idx sc e_idx e)) (text "match") = is_match e.
Proof.
  unfold edge_info, is_match; cbn [EntryEdgeInfo.type].
  destruct (edge_type e); [reflexivity | apply unknown_is_not_match].
Qed.

(** The patterns of the match edges of one scenario. *)
Lemma match_patterns_of_scenario s_idx sc :
  map EntryEdgeInfo.pattern
      (filter (fun e => str_eqb (EntryEdgeInfo.type e) (text "match") = true)
              (edges_of_scenario s_idx sc))
  = map (fun e => get (edge_value e) [])
        (filter (fun e => is_match e = true) (get (scenario_entry_edges sc) [])).
Proof.
  unfold edges_of_scenario, enumerate.
  generalize (get (scenario_entry_edges sc) []). intros es.
  assert (Hgen : forall (ix : nat -> nat),
    map EntryEdgeInfo.pattern
      (filter (fun e => str_eqb (EntryEdgeInfo.type e) (text "match") = true)
         (map (fun '(e_idx, e) => edge_info s_idx sc e_idx e)
              (imap (fun i e => (ix i, e)) es)))
    = map (fun e => get (edge_value e) [])
          (filter (fun e => is_match e = true) es)).
  { induction es as [|e es IH]; intros ix; [reflexivity |].
    rewrite imap_cons. cbn [map]. rewrite !filter_cons.
    specialize (IH (fun i => ix (S i))).
    unfold compose.
    destruct (decide (is_match e = true)) as [Hm | Hm];
      destruct (decide (str_eqb (EntryEdgeInfo.type (edge_info s_idx sc (ix 0) e))
                          (text "match") = true)) as [Hm' | Hm'];
      rewrite edge_info_is_match in Hm'; try contradiction.
    - cbn [map]. f_equal. apply IH.
    - apply IH. }
  apply (Hgen (fun i => i)).
Qed.

Lemma match_patterns_extracted attrs :
  map EntryEdgeInfo.pattern
      (filter (fun e => str_eqb (EntryEdgeInfo.type e) (text "match") = true)
              (edges_of attrs))
  = match_patterns attrs.
Proof.
  unfold edges_of, match_patterns, enumerate.
  generalize (get (scenarios attrs) []). intros scs.
  assert (Hgen : forall (ix : nat -> nat),
    map EntryEdgeInfo.pattern
      (filter (fun e => str_eqb (EntryEdgeInfo.type e) (text "match") = true)
         (flat_map (fun '(s_idx, sc) => edges_of_scenario s_idx sc)
                   (imap (fun i sc => (ix i, sc)) scs)))
    = flat_map (fun sc => map (fun e => get (edge_value e) [])
                            (filter (fun e => is_match e = true)
                                    (get (scenario_entry_edges sc) []))) scs).
  { induction scs as [|sc scs IH]; intros ix; [reflexivity |].
    rewrite imap_cons. cbn [flat_map]. rewrite filter_app, map_app.
    rewrite match_patterns_of_scenario. f_equal.
    apply (IH (fun i => ix (S i))). }
  apply (Hgen (fun i => i)).
Qed.

Lemma argname_match_edge unicode_alnum edges :
  argname (parametrize_match_edge unicode_alnum edges) = text "match_edge".
Proof. destruct edges; reflexivity. Qed.

Lemma argname_buttons_scenario all_scenarios :
  argname (parametrize_buttons_scenario all_scenarios) <> text "match_edge".
Proof.
  unfold parametrize_buttons_scenario.
  destruct (filter _ all_scenarios); cbn [argname]; intros H; vm_compute in H; discriminate.
Qed.

(** A configuration that has a match edge is not the empty mapping. *)
Lemma truthy_of_match_patterns c :
  match_patterns (extract_bot_attributes c) <> [] -> truthy c = true.
Proof.
  destruct c as [[d|] [[scs|] other]]; try reflexivity.
  intros H. exfalso. apply H. reflexivity.
Qed.

(** On a configuration that is not the empty mapping, the hook makes the
    [match_edge] call exactly when the test function takes [match_edge]. *)
Lemma match_edge_calls_run unicode_alnum c fixturenames :
  truthy c = true ->
  match_edge_calls unicode_alnum (Some c) fixturenames
  = Some (if bool_decide (text "match_edge" ∈ fixturenames)
          then [ parametrize_match_edge unicode_alnum
                   (filter (fun e => str_eqb (EntryEdgeInfo.type e) (text "match") = true)
                           (edges_of (extract_bot_attributes c))) ]
          else []).
Proof.
  intros Htruthy. unfold match_edge_calls, pytest_generate_tests. rewrite Htruthy.
  cbn [negb]. unfold bind at 1. cbn [set_config_attr].
  set (self := {| config_attrs := Some (extract_bot_attributes c) |}).
  assert (Hattrs : config_attrs self = Some (extract_bot_attributes c)) by reflexivity.
  unfold bind at 1.
  assert (Hmatch :
    (if bool_decide (text "match_edge" ∈ fixturenames)
     then do edges <- extract_entry_edges_by_type (text "match") ;
          ret [ parametrize_match_edge unicode_alnum edges ]
     else ret []) self
    = (Some (if bool_decide (text "match_edge" ∈ fixturenames)
             then [ parametrize_match_edge unicode_alnum
                      (filter (fun e => str_eqb (EntryEdgeInfo.type e) (text "match") = true)
                              (edges_of (extract_bot_attributes c))) ]
             else []), self)).
  { destruct (bool_decide (text "match_edge" ∈ fixturenames)); [| reflexivity].
    unfold bind. rewrite (extract_entry_edges_by_type_run _ _ _ Hattrs). reflexivity. }
  rewrite Hmatch. clear Hmatch. unfold bind at 1.
  assert (Hbuttons :
    (if bool_decide (text "buttons_scenario" ∈ fixturenames)
     then do all_scenarios <- extract_scenarios ;
          ret [ parametrize_buttons_scenario all_scenarios ]
     else ret []) self
    = (Some (if bool_decide (text "buttons_scenario" ∈ fixturenames)
             then [ parametrize_buttons_scenario (scenarios_of (extract_bot_attributes c)) ]
             else []), self)).
  { destruct (bool_decide (text "buttons_scenario" ∈ fixturenames)); [| reflexivity].
    unfold bind. rewrite (extract_scenarios_run _ _ Hattrs). reflexivity. }
  rewrite Hbuttons. clear Hbuttons. unfold ret. cbn [fst fmap option_fmap option_map].
  f_equal. rewrite filter_app.
  assert (Hb : filter (fun call : parametrize => argname call = text "match_edge")
                 (if bool_decide (text "buttons_scenario" ∈ fixturenames)
                  then [ parametrize_buttons_scenario
                           (scenarios_of (extract_bot_attributes c)) ]
                  else []) = []).
  { destruct (bool_decide (text "buttons_scenario" ∈ fixturenames)); [| reflexivity].
    rewrite filter_cons_False by apply argname_buttons_scenario. reflexivity. }
  rewrite Hb, app_nil_r. clear Hb.
  destruct (bool_decide (text "match_edge" ∈ fixturenames)); [| reflexivity].
  rewrite filter_cons_True by apply argname_match_edge. reflexivity.
Qed.

End HookProperties.

(** C4, as stated, fails: the empty mapping is a configuration with no
    match-type entry edge, and for it the hook returns before any call of
    [parametrize]: the [match_edge] family gets no case at all. *)
Lemma empty_mapping_gets_no_case :
  length (Shape.match_patterns (Extractor.extract_bot_attributes Shape.empty_config)) = 0
  /\ Conftest.pytest_generate_tests Samples.no_unicode_alnum
       (Some Shape.empty_config) [text "match_edge"] = Some []
  /\ Conftest.match_edge_calls Samples.no_unicode_alnum
       (Some Shape.empty_config) [text "match_edge"] = Some [].
Proof. repeat split. Qed.

(** C4, amended: for every configuration other than the empty mapping that
    has no match-type entry edge, and every test function that takes
    [match_edge], the hook makes exactly one [match_edge] call, which
    registers exactly one case, [pytest.param(None)] marked to be skipped
    with the reason ["No match edges"], and passes no ids. *)
Theorem no_match_edges_one_skipped_case
    (unicode_alnum : N -> bool) (c : Config.config) (fixturenames : list str) :
  Config.truthy c = true ->
  text "match_edge" ∈ fixturenames ->
  length (Shape.match_patterns (Extractor.extract_bot_attributes c)) = 0 ->
  exists call : Conftest.parametrize,
    Conftest.match_edge_calls unicode_alnum (Some c) fixturenames = Some [call]
    /\ Conftest.argname call = text "match_edge"
    /\ Conftest.argvalues call
       = [ Conftest.param_none [ Conftest.skip (text "No match edges") ] ]
    /\ length (Conftest.argvalues call) = 1
    /\ Forall (fun v => Conftest.is_skipped v = true) (Conftest.argvalues call)
    /\ Conftest.ids call = None.
Proof.
  intros Htruthy Hin Hzero.
  rewrite (match_edge_calls_run _ _ _ Htruthy).
  rewrite (bool_decide_eq_true_2 _ Hin).
  rewrite <- match_patterns_extracted, length_map in Hzero.
  apply nil_length_inv in Hzero. rewrite Hzero.
  eexists. split; [reflexivity |].
  unfold Conftest.parametrize_match_edge.
  cbn [Conftest.argname Conftest.argvalues Conftest.ids length].
  repeat split. repeat constructor.
Qed.

Lemma no_match_edges_one_skipped_case_witness :
  Config.truthy Samples.no_match_config = true
  /\ text "match_edge" ∈ [text "match_edge"]
  /\ length (Shape.match_patterns
               (Extractor.extract_bot_attributes Samples.no_match_config)) = 0
  /\ exists call : Conftest.parametrize,
    Conftest.match_edge_calls Samples.no_unicode_alnum
      (Some Samples.no_match_config) [text "match_edge"] = Some [call]
    /\ Conftest.argname call = text "match_edge"
    /\ Conftest.argvalues call
       = [ Conftest.param_none [ Conftest.skip (text "No match edges") ] ]
    /\ length (Conftest.argvalues call) = 1
    /\ Forall (fun v => Conftest.is_skipped v = true) (Conftest.argvalues call)
    /\ Conftest.ids call = None.
Proof.
  split; [reflexivity |]. split; [constructor |]. split; [vm_compute; reflexivity |].
  apply (no_match_edges_one_skipped_case Samples.no_unicode_alnum
           Samples.no_match_config [text "match_edge"]);
    [reflexivity | constructor | vm_compute; reflexivity].
Defined.

(** C6: for every configuration whose match-type entry edges have, in
    document order, exactly the patterns ["привет"], ["/start"] and
    ["помощь совет"], and every test function that takes [match_edge], the
    hook makes one [match_edge] call with the three match edges as cases and
    passes the ids [match_0_привет], [match_1_start] and
    [match_2_помощь_совет], whatever the interpreter's Unicode table. *)
Theorem three_match_edges_ids
    (unicode_alnum : N -> bool) (c : Config.config) (fixturenames : list str) :
  text "match_edge" ∈ fixturenames ->
  Shape.match_patterns (Extractor.extract_bot_attributes c)
  = [ text "привет"; text "/start"; text "помощь совет" ] ->
  exists (call : Conftest.parametrize) (e0 e1 e2 : EntryEdgeInfo.t),
    Conftest.match_edge_calls unicode_alnum (Some c) fixturenames = Some [call]
    /\ Extractor.on_config c (Extractor.extract_entry_edges_by_type (text "match"))
       = Some [e0; e1; e2]
    /\ Conftest.argvalues call
       = [ Conftest.edge_case e0; Conftest.edge_case e1; Conftest.edge_case e2 ]
    /\ Conftest.ids call
       = Some [ text "match_0_привет"; text "match_1_start"; text "match_2_помощь_совет" ].
Proof.
  intros Hin Hpatterns.
  assert (Htruthy : Config.truthy c = true)
    by (apply truthy_of_match_patterns; rewrite Hpatterns; discriminate).
  rewrite (match_edge_calls_run _ _ _ Htruthy).
  rewrite (bool_decide_eq_true_2 _ Hin).
  rewrite on_config_run.
  rewrite (extract_entry_edges_by_type_run _ (Extractor.extract_bot_attributes c))
    by reflexivity.
  rewrite <- match_patterns_extracted in Hpatterns.
  destruct (filter _ (Shape.edges_of (Extractor.extract_bot_attributes c)))
    as [|e0 [|e1 [|e2 [|e3 rest]]]]; try discriminate Hpatterns.
  injection Hpatterns as H0 H1 H2.
  eexists _, e0, e1, e2. split; [reflexivity |]. split; [reflexivity |].
  split; [reflexivity |].
  unfold Conftest.parametrize_match_edge, Config.enumerate.
  cbn [Conftest.ids imap map compose].
  rewrite H0, H1, H2.
  rewrite make_test_id_privet, make_test_id_start, make_test_id_help_advice.
  reflexivity.
Qed.

Lemma three_match_edges_ids_witness :
  text "match_edge" ∈ [text "match_edge"]
  /\ Shape.match_patterns (Extractor.extract_bot_attributes Samples.three_match_config)
     = [ text "привет"; text "/start"; text "помощь совет" ]
  /\ exists (call : Conftest.parametrize) (e0 e1 e2 : EntryEdgeInfo.t),
    Conftest.match_edge_calls Samples.no_unicode_alnum
      (Some Samples.three_match_config) [text "match_edge"] = Some [call]
    /\ Extractor.on_config Samples.three_match_config
         (Extractor.extract_entry_edges_by_type (text "match"))
       = Some [e0; e1; e2]
    /\ Conftest.argvalues call
       = [ Conftest.edge_case e0; Conftest.edge_case e1; Conftest.edge_case e2 ]
    /\ Conftest.ids call
       = Some [ text "match_0_привет"; text "match_1_start"; text "match_2_помощь_совет" ].
Proof.
  split; [constructor |]. split; [vm_compute; reflexivity |].
  apply (three_match_edges_ids Samples.no_unicode_alnum
           Samples.three_match_config [text "match_edge"]);
    [constructor | vm_compute; reflexivity].
Defined.

(** ** Further properties of the coverage tracker *)

Section TrackerCalls.
Import Tracker Calls.

Lemma apply_is_mark c t : apply c t = mark (key_of c) (result_of c) t.
Proof. destruct c; reflexivity. Qed.

Lemma mark_history_other key key' b t :
  key <> key' -> history key' (mark key b t) = history key' t.
Proof.
  intros Hne. unfold history, mark; cbn [test_results].
  rewrite lookup_insert_ne by assumption. reflexivity.
Qed.

Lemma mark_history_nonempty key b t : history key (mark key b t) <> [].
Proof. rewrite mark_history. intros H. apply app_eq_nil in H as [_ H]. discriminate. Qed.

Lemma prefix_block : text "block:" = [98; 108; 111; 99; 107; 58]%N.
Proof. vm_compute. reflexivity. Qed.
Lemma prefix_edge : text "edge:" = [101; 100; 103; 101; 58]%N.
Proof. vm_compute. reflexivity. Qed.
Lemma prefix_node : text "node:" = [110; 111; 100; 101; 58]%N.
Proof. vm_compute. reflexivity. Qed.

Lemma run_snoc calls c t : run (calls ++ [c]) t = apply c (run calls t).
Proof. unfold run. rewrite fold_left_app. reflexivity. Qed.

Lemma coverage_summary_total {float : Type} (int_div : Z -> Z -> float)
    (float_mul : float -> Z -> float) (float_round : float -> Z -> float)
    (total : Z) (t : CoverageTracker) :
  exists s,
    get_coverage_summary int_div float_mul float_round total t = Some s
    /\ sum_tested_elements s = Z.of_nat (size (tested_elements t))
    /\ sum_untested_elements s = (total - Z.of_nat (size (tested_elements t)))%Z
    /\ sum_total_elements s = total.
Proof.
  unfold get_coverage_summary, true_div.
  destruct (0 <? total)%Z eqn:Hpos; cbn; [| eauto].
  apply Z.ltb_lt in Hpos.
  destruct (total =? 0)%Z eqn:Hz; [apply Z.eqb_eq in Hz; lia | cbn; eauto].
Qed.

End TrackerCalls.

(** X1: on every tracker that a sequence of marking calls builds from a
    fresh one, a key is in the tested-elements set exactly when its history
    is not empty, and the keys of the history dictionary are the tested
    elements. *)
Theorem tested_iff_history (calls : list Calls.call) (key : str) :
  let t := Calls.run calls Tracker.init in
  (key ∈ Tracker.tested_elements t <-> Tracker.history key t <> [])
  /\ dom (Tracker.test_results t) = Tracker.tested_elements t.
Proof.
  cbv zeta. revert key.
  induction calls as [|c calls IH] using rev_ind; intros key.
  - split; [| apply dom_empty_L].
    unfold Tracker.history; cbn. rewrite lookup_empty. cbn.
    split; [intros H; exfalso; exact (not_elem_of_empty key H) | congruence].
  - rewrite run_snoc, apply_is_mark. split.
    + rewrite mark_tested_elements, elem_of_union, elem_of_singleton.
      destruct (decide (Calls.key_of c = key)) as [<- | Hne].
      * split; [intros _; apply mark_history_nonempty | intros _; left; reflexivity].
      * rewrite mark_history_other by assumption.
        rewrite (proj1 (IH key)). split; [intros [H | H]; [congruence | assumption] | auto].
    + unfold Tracker.mark at 1; cbn [Tracker.test_results].
      rewrite dom_insert_L, mark_tested_elements, (proj2 (IH key)). reflexivity.
Qed.

(** X2: the three kinds of element are kept apart: marking an edge or a node
    changes neither the history nor the tested status of any block, and
    marking a block or a node changes neither for any edge. *)
Theorem kinds_do_not_interfere
    (t : Tracker.CoverageTracker) (path other : str) (passed : bool) :
  let block := text "block:" ++ path in
  let edge := text "edge:" ++ path in
  (Tracker.history block (Tracker.mark_edge_tested other passed t) = Tracker.history block t
   /\ Tracker.history block (Tracker.mark_node_tested other passed t) = Tracker.history block t
   /\ (block ∈ Tracker.tested_elements (Tracker.mark_edge_tested other passed t)
       <-> block ∈ Tracker.tested_elements t)
   /\ (block ∈ Tracker.tested_elements (Tracker.mark_node_tested other passed t)
       <-> block ∈ Tracker.tested_elements t))
  /\ (Tracker.history edge (Tracker.mark_block_tested other passed t) = Tracker.history edge t
      /\ Tracker.history edge (Tracker.mark_node_tested other passed t) = Tracker.history edge t
      /\ (edge ∈ Tracker.tested_elements (Tracker.mark_block_tested other passed t)
          <-> edge ∈ Tracker.tested_elements t)
      /\ (edge ∈ Tracker.tested_elements (Tracker.mark_node_tested other passed t)
          <-> edge ∈ Tracker.tested_elements t)).
Proof.
  cbv zeta.
  unfold Tracker.mark_block_tested, Tracker.mark_edge_tested, Tracker.mark_node_tested.
  rewrite prefix_block, prefix_edge, prefix_node.
  assert (Hmem : forall key key' : str, key <> key' ->
            key' ∈ Tracker.tested_elements (Tracker.mark key passed t)
            <-> key' ∈ Tracker.tested_elements t).
  { intros key key' Hne. rewrite mark_tested_elements, elem_of_union, elem_of_singleton.
    split; [intros [H | H]; [congruence | assumption] | auto]. }
  repeat match goal with |- _ /\ _ => split end;
    first [ apply mark_history_other | apply Hmem ]; cbn [app]; discriminate.
Qed.

(** X3: the history of a path keeps every result in call order: marking
    one block path with a list of results, one call each, appends exactly
    these results, in order, to the path's history. *)
Theorem history_keeps_call_order
    (t : Tracker.CoverageTracker) (block_path : str) (results : list bool) :
  Tracker.history (text "block:" ++ block_path)
    (Calls.run (map (Calls.MarkBlock block_path) results) t)
  = Tracker.history (text "block:" ++ block_path) t
    ++ map Tracker.Build_test_record results.
Proof.
  revert t. induction results as [|b results IH]; intros t.
  - cbn. rewrite app_nil_r. reflexivity.
  - cbn [map]. unfold Calls.run in *. cbn [fold_left Calls.apply].
    rewrite IH. unfold Tracker.mark_block_tested. rewrite mark_history.
    rewrite <- app_assoc. reflexivity.
Qed.

(** X4: the tested count of the summary is the number of distinct keys
    marked since the tracker was created, never more than the number of
    calls, and the untested count is the total minus it, without a lower
    bound at zero. *)
Theorem summary_counts_distinct_keys
    {float : Type} (int_div : Z -> Z -> float) (float_mul : float -> Z -> float)
    (float_round : float -> Z -> float) (calls : list Calls.call) (total : Z) :
  exists s,
    Tracker.get_coverage_summary int_div float_mul float_round total
      (Calls.run calls Tracker.init) = Some s
    /\ Tracker.sum_tested_elements s
       = Z.of_nat (size (list_to_set (map Calls.key_of calls) : gset str))
    /\ (Tracker.sum_tested_elements s <= Z.of_nat (length calls))%Z
    /\ Tracker.sum_untested_elements s = (total - Tracker.sum_tested_elements s)%Z
    /\ Tracker.sum_total_elements s = total.
Proof.
  assert (Hkeys : Tracker.tested_elements (Calls.run calls Tracker.init)
                  = list_to_set (map Calls.key_of calls)).
  { induction calls as [|c calls IH] using rev_ind; [reflexivity |].
    rewrite run_snoc, apply_is_mark, mark_tested_elements, IH.
    rewrite map_app. cbn [map]. rewrite list_to_set_app_L. cbn [list_to_set].
    rewrite (right_id_L ∅ (∪)). apply (comm_L (∪)). }
  assert (Hsize : size (list_to_set (map Calls.key_of calls) : gset str) <= length calls).
  { clear. generalize (length_map Calls.key_of calls). intros <-.
    induction (map Calls.key_of calls) as [|k ks IH]; cbn [list_to_set length];
      [rewrite size_empty; lia |].
    rewrite size_union_alt, size_singleton.
    assert (size (list_to_set ks ∖ {[k]} : gset str) <= size (list_to_set ks : gset str))
      by (apply subseteq_size, subseteq_difference_l; reflexivity).
    lia. }
  destruct (coverage_summary_total int_div float_mul float_round total
              (Calls.run calls Tracker.init)) as (s & Hs & Htested & Huntested & Htotal).
  exists s. split; [exact Hs |].
  rewrite Htested, Huntested, Htotal, Hkeys.
  repeat split; lia.
Qed.

(** ** Further properties of the pattern-to-probe converter *)

Section ProbeShape.
Import Re Utils Steps.

Lemma regex_to_sample_message_steps (pattern : str) :
  regex_to_sample_message pattern
  = match pattern with
    | [] => text "test"
    | _ => finish (strip_anchors (first_alternative pattern))
    end.
Proof. destruct pattern; reflexivity. Qed.

Lemma finish_empty : finish [] = text "test".
Proof. vm_compute. reflexivity. Qed.

Lemma space_is_space : is_space 32 = true.
Proof. reflexivity. Qed.

Lemma drop_while_id (p : N -> bool) (s : str) :
  (forall c, head s = Some c -> p c = false) -> drop_while p s = s.
Proof.
  destruct s as [|c s]; [reflexivity |]. intros H. cbn.
  rewrite (H c eq_refl). reflexivity.
Qed.

Lemma strip_id (s : str) :
  (forall c, head s = Some c -> is_space c = false) ->
  (forall c, last s = Some c -> is_space c = false) ->
  strip s = s.
Proof.
  intros Hh Hl. unfold strip. rewrite (drop_while_id _ s Hh).
  rewrite drop_while_id; [apply rev_involutive |].
  intros c. rewrite head_rev_last. apply Hl.
Qed.

(** The words [split_ws] returns are not empty and consist of the
    characters of the subject that are not whitespace. *)
Lemma split_ws_go_words (Q : N -> Prop) (s cur : str) :
  Forall Q s -> Forall (fun c => is_space c = false /\ Q c) cur ->
  Forall (fun w => w <> [] /\ Forall (fun c => is_space c = false /\ Q c) w)
         (split_ws_go cur s).
Proof.
  revert cur. induction s as [|c s IH]; intros cur Hs Hcur; cbn.
  - destruct cur as [|d cur]; constructor; [| constructor].
    split.
    + intros H. apply (f_equal (@length N)) in H.
      rewrite length_rev in H. discriminate.
    + apply Forall_rev. assumption.
  - inversion Hs as [|? ? Hc Hs']; subst.
    destruct (is_space c) eqn:Hsp.
    + destruct cur as [|d cur]; [apply IH; [assumption | constructor] |].
      constructor; [| apply IH; [assumption | constructor]].
      split.
      * intros H. apply (f_equal (@length N)) in H.
        rewrite length_rev in H. discriminate.
      * apply Forall_rev. assumption.
    + apply IH; [assumption |]. constructor; [split |]; assumption.
Qed.

Lemma join_words_ends (Q : N -> Prop) (words : list str) :
  Forall (fun w => w <> [] /\ Forall Q w) words ->
  (forall c, head (join (text " ") words) = Some c -> Q c)
  /\ (forall c, last (join (text " ") words) = Some c -> Q c)
  /\ (words <> [] -> join (text " ") words <> []).
Proof.
  change (text " ") with [32%N].
  induction 1 as [|w words [Hne Hw] Hwords IH]; [repeat split; try discriminate; congruence |].
  destruct words as [|w' words].
  - cbn. repeat split; [| | intros _; assumption].
    + intros c Hc. destruct w; [discriminate |]. injection Hc as <-.
      inversion Hw; assumption.
    + intros c Hc. apply last_Some in Hc as [l' ->].
      apply Forall_app in Hw as [_ Hw]. inversion Hw; assumption.
  - destruct IH as (_ & IHl & IHn).
    change (join [32%N] (w :: w' :: words)) with (w ++ [32%N] ++ join [32%N] (w' :: words)).
    repeat split.
    + intros c Hc. destruct w; [congruence |]. injection Hc as <-.
      inversion Hw; assumption.
    + intros c Hc. apply IHl.
      assert (Hrest : join [32%N] (w' :: words) <> []) by (apply IHn; discriminate).
      destruct (join [32%N] (w' :: words)) as [|x rest] eqn:Hj using rev_ind;
        [congruence |].
      clear IHrest. rewrite !app_assoc, last_snoc in Hc. rewrite last_snoc. assumption.
    + intros _ H. destruct w; [congruence | discriminate].
Qed.

End ProbeShape.

(** X5: for every pattern the probe is one or more words, joined by single
    spaces, each word not empty and free of whitespace and backslashes: the
    probe is never the empty string, has no whitespace at either end, no two
    adjacent spaces and no backslash. *)
Theorem probe_is_words (pattern : str) :
  exists words : list str,
    regex_to_sample_message pattern = join (text " ") words
    /\ words <> []
    /\ Forall Steps.probe_word words
    /\ regex_to_sample_message pattern <> [].
Proof.
  assert (Htest : exists words : list str,
            text "test" = join (text " ") words /\ words <> []
            /\ Forall Steps.probe_word words /\ text "test" <> []).
  { exists [text "test"]. split; [reflexivity |]. split; [discriminate |].
    split; [| vm_compute; discriminate].
    constructor; [| constructor]. split; [vm_compute; discriminate |].
    vm_compute. repeat (constructor; [split; [reflexivity | discriminate] |]). constructor. }
  rewrite regex_to_sample_message_steps. destruct pattern as [|c0 pattern]; [exact Htest |].
  generalize (strip_anchors (Steps.first_alternative (c0 :: pattern))). intros stripped.
  unfold Steps.finish.
  generalize (fold_left (fun acc '(regex_pat, replacement) => Re.sub regex_pat replacement acc)
                replacements stripped). intros replaced.
  assert (Hclean : Forall (fun c => c <> backslash) (replace_char backslash [] replaced)).
  { unfold replace_char. induction replaced as [|c s IH]; [constructor |].
    cbn [flat_map]. destruct (c =? backslash)%N eqn:Hc; cbn [app]; [assumption |].
    constructor; [apply N.eqb_neq, Hc | assumption]. }
  pose proof (split_ws_go_words (fun c => c <> backslash) _ []
                Hclean ltac:(constructor)) as Hwords.
  fold (split_ws (replace_char backslash [] replaced)) in Hwords.
  generalize dependent (split_ws (replace_char backslash [] replaced)).
  intros words Hwords.
  destruct (join_words_ends (fun c => is_space c = false /\ c <> backslash) words Hwords)
    as (Hhead & Hlast & Hne).
  rewrite strip_id by (intros c Hc; first [apply (Hhead c Hc) | apply (Hlast c Hc)]).
  destruct words as [|w words'] eqn:Hw; [exact Htest |].
  assert (Hj : join (text " ") (w :: words') <> []) by (apply Hne; discriminate).
  destruct (join (text " ") (w :: words')) as [|x rest] eqn:Hjoin; [congruence |].
  exists (w :: words'). rewrite Hjoin. split; [reflexivity |]. split; [discriminate |].
  split; [exact Hwords | discriminate].
Qed.

Section Alternatives.
Import Re Utils Steps.

Lemma char_in_app (a b : str) (c : N) : char_in (a ++ b) c = char_in a c || char_in b c.
Proof. unfold char_in. apply existsb_app. Qed.

Lemma char_in_repeat (x c : N) (n : nat) : x <> c -> char_in (repeat x n) c = false.
Proof.
  intros Hne. unfold char_in. induction n as [|n IH]; [reflexivity |].
  cbn. rewrite IH, orb_false_r. apply N.eqb_neq. congruence.
Qed.

Lemma split_on_prefix (sep : N) (a b : str) :
  char_in a sep = false -> split_on sep (a ++ sep :: b) = a :: split_on sep b.
Proof.
  induction a as [|c a IH]; intros Ha; cbn.
  - rewrite N.eqb_refl. reflexivity.
  - cbn in Ha. apply orb_false_elim in Ha as [Hc Ha].
    rewrite N.eqb_sym in Hc. rewrite Hc, (IH Ha). reflexivity.
Qed.

Lemma first_alternative_app (a b : str) :
  char_in a bar = false -> first_alternative (a ++ bar :: b) = a.
Proof.
  intros Ha. unfold first_alternative.
  rewrite char_in_app. cbn [char_in existsb]. rewrite N.eqb_refl, orb_true_r.
  rewrite (split_on_prefix _ _ _ Ha). reflexivity.
Qed.

Lemma first_alternative_no_bar (p : str) :
  char_in p bar = false -> first_alternative p = p.
Proof. intros Hp. unfold first_alternative. rewrite Hp. reflexivity. Qed.

Lemma char_in_split (p : str) (c : N) :
  char_in p c = true -> exists a b, p = a ++ c :: b /\ char_in a c = false.
Proof.
  induction p as [|x p IH]; [discriminate |]. cbn.
  destruct (c =? x)%N eqn:Hx.
  - intros _. apply N.eqb_eq in Hx as <-. exists [], p. split; reflexivity.
  - cbn. intros Hp. destruct (IH Hp) as (a & b & -> & Ha).
    exists (x :: a), b. split; [reflexivity |]. cbn. rewrite Hx. assumption.
Qed.

Lemma lstrip_repeat_app (c : N) (i : nat) (s : str) :
  lstrip [c] (repeat c i ++ s) = lstrip [c] s.
Proof.
  induction i as [|i IH]; [reflexivity |].
  unfold lstrip in *. cbn. rewrite N.eqb_refl. cbn. assumption.
Qed.

Lemma rev_repeat (c : N) (j : nat) : rev (repeat c j) = repeat c j.
Proof.
  induction j as [|j IH]; [reflexivity |].
  cbn. rewrite IH. clear. induction j as [|j IH]; [reflexivity |].
  cbn. f_equal. assumption.
Qed.

Lemma rstrip_app_repeat (c : N) (j : nat) (s : str) :
  rstrip [c] (s ++ repeat c j) = rstrip [c] s.
Proof.
  unfold rstrip. rewrite rev_app_distr, rev_repeat.
  f_equal. apply (lstrip_repeat_app c j (rev s)).
Qed.

Lemma strip_anchors_around (p : str) (i j : nat) :
  strip_anchors (repeat caret i ++ p ++ repeat dollar j) = strip_anchors p.
Proof.
  unfold strip_anchors. rewrite lstrip_repeat_app.
  induction p as [|x p IH].
  - cbn [app]. unfold lstrip. rewrite drop_while_id.
    + apply (rstrip_app_repeat dollar j []).
    + intros c Hc. destruct j; [discriminate |]. injection Hc as <-. reflexivity.
  - unfold lstrip in *. cbn [app drop_while].
    destruct (char_in [caret] x); [assumption |].
    apply (rstrip_app_repeat dollar j (x :: p)).
Qed.

End Alternatives.

(** X6: alternatives after the first are never sampled: when the text
    before a bar holds no bar, what follows the bar does not change the
    probe. *)
Theorem only_first_alternative (first rest : str) :
  char_in first bar = false ->
  regex_to_sample_message (first ++ bar :: rest) = regex_to_sample_message first.
Proof.
  intros Hfirst. rewrite !regex_to_sample_message_steps.
  rewrite (first_alternative_app _ _ Hfirst), (first_alternative_no_bar _ Hfirst).
  destruct first as [|c first]; [| reflexivity].
  cbn [app]. apply finish_empty.
Qed.

Lemma only_first_alternative_witness :
  char_in (text "hello") bar = false
  /\ regex_to_sample_message (text "hello" ++ bar :: text "hi there")
     = regex_to_sample_message (text "hello").
Proof.
  split; [reflexivity |].
  apply (only_first_alternative (text "hello") (text "hi there")). reflexivity.
Defined.

(** X7: anchors are ignored in any number: carets put before a pattern and
    dollars put after it leave the probe unchanged. *)
Theorem anchors_are_ignored (pattern : str) (i j : nat) :
  regex_to_sample_message (repeat caret i ++ pattern ++ repeat dollar j)
  = regex_to_sample_message pattern.
Proof.
  rewrite !regex_to_sample_message_steps.
  assert (Hsame : strip_anchors
                    (Steps.first_alternative (repeat caret i ++ pattern ++ repeat dollar j))
                  = strip_anchors (Steps.first_alternative pattern)).
  { destruct (char_in pattern bar) eqn:Hbar.
    - destruct (char_in_split _ _ Hbar) as (a & b & -> & Ha).
      rewrite (first_alternative_app _ _ Ha).
      replace (repeat caret i ++ (a ++ bar :: b) ++ repeat dollar j)
        with ((repeat caret i ++ a) ++ bar :: (b ++ repeat dollar j))
        by (rewrite <- !app_assoc; reflexivity).
      rewrite first_alternative_app
        by (rewrite char_in_app, Ha, char_in_repeat by discriminate; reflexivity).
      rewrite <- (app_nil_r (repeat caret i ++ a)), <- app_assoc.
      apply (strip_anchors_around a i 0).
    - rewrite (first_alternative_no_bar _ Hbar), first_alternative_no_bar.
      + apply strip_anchors_around.
      + rewrite !char_in_app, Hbar, !char_in_repeat by discriminate. reflexivity. }
  destruct pattern as [|c pattern].
  - destruct (repeat caret i ++ [] ++ repeat dollar j) eqn:Hq; [reflexivity |].
    rewrite Hsame. apply finish_empty.
  - destruct (repeat caret i ++ (c :: pattern) ++ repeat dollar j) eqn:Hq.
    + apply (f_equal (@length N)) in Hq. rewrite !length_app in Hq. cbn in Hq. lia.
    + rewrite Hsame. reflexivity.
Qed.

Section LetterSpacing.
Import Re Utils Steps.

(** A pattern that starts with an atom no character of the subject is in
    matches nowhere. *)
Lemma sub_no_match (p : N -> bool) (q : quant) (re : regex) (repl s : str) :
  q <> Star -> Forall (fun c => p c = false) s -> sub ((p, q) :: re) repl s = s.
Proof.
  intros Hq. unfold sub. induction 1 as [|c s Hc _ IH].
  - cbn. destruct q; [reflexivity | reflexivity | contradiction].
  - cbn [sub_scan].
    assert (Hm : match_here ((p, q) :: re) (c :: s) = None)
      by (cbn [match_here]; rewrite Hc;
          destruct q; [reflexivity | reflexivity | contradiction]).
    rewrite Hm. f_equal. exact IH.
Qed.

(** On a subject without whitespace the optional-whitespace pattern
    matches, empty, before every character and at the end. *)
Lemma sub_optional_whitespace (s : str) :
  Forall (fun c => is_space c = false) s ->
  sub [(is_space, Star)] [32%N] s = 32%N :: flat_map (fun c => [c; 32%N]) s.
Proof.
  unfold sub. induction 1 as [|c s Hc _ IH]; [reflexivity |].
  cbn [sub_scan]. replace (match_here [(is_space, Star)] (c :: s)) with (Some 0).
  - cbn [app flat_map]. f_equal. f_equal. exact IH.
  - cbn [match_here]. rewrite Hc. reflexivity.
Qed.

Lemma replace_char_id (old : N) (new s : str) :
  Forall (fun c => (c =? old)%N = false) s -> replace_char old new s = s.
Proof.
  unfold replace_char. induction 1 as [|c s Hc _ IH]; [reflexivity |].
  cbn [flat_map]. rewrite Hc, IH. reflexivity.
Qed.

Lemma split_ws_letter_spaced (s : str) :
  Forall (fun c => is_space c = false) s ->
  split_ws (32%N :: flat_map (fun c => [c; 32%N]) s) = map (fun c => [c]) s.
Proof.
  unfold split_ws. cbn [split_ws_go]. rewrite space_is_space.
  induction 1 as [|c s Hc _ IH]; [reflexivity |].
  cbn [flat_map app split_ws_go]. rewrite Hc, space_is_space.
  cbn [rev app map]. f_equal. exact IH.
Qed.

Lemma plain_facts (c : N) :
  plain c = true ->
  is_space c = false /\ (c =? bar)%N = false /\ (c =? caret)%N = false
  /\ (c =? dollar)%N = false /\ (c =? dot)%N = false /\ (c =? backslash)%N = false.
Proof.
  unfold plain, char_in. cbn [existsb]. rewrite orb_false_r.
  rewrite !(N.eqb_sym c).
  destruct (is_space c), (bar =? c)%N, (caret =? c)%N, (dollar =? c)%N, (dot =? c)%N,
    (backslash =? c)%N; cbn; intros H; try discriminate H; repeat split.
Qed.

End LetterSpacing.

(** X8: a pattern of plain characters comes back letter-spaced: for every
    pattern that is not empty and has no whitespace and none of bar, caret,
    dollar, dot and backslash, the probe is the characters of the pattern
    with one space between every two of them. *)
Theorem plain_pattern_is_letter_spaced (pattern : str) :
  pattern <> [] ->
  Forall (fun c => plain c = true) pattern ->
  regex_to_sample_message pattern = join (text " ") (map (fun c => [c]) pattern).
Proof.
  intros Hne Hplain.
  assert (Hall : Forall (fun c => is_space c = false /\ (c =? bar)%N = false
                    /\ (c =? caret)%N = false /\ (c =? dollar)%N = false
                    /\ (c =? dot)%N = false /\ (c =? backslash)%N = false) pattern).
  { eapply Forall_impl; [exact Hplain | apply plain_facts]. }
  clear Hplain.
  assert (Hspace : Forall (fun c => is_space c = false) pattern)
    by (eapply Forall_impl; [exact Hall | intros c H; apply H]).
  assert (Hdot : Forall (fun c => Re.lit dot c = false)
                   (32%N :: flat_map (fun c => [c; 32%N]) pattern)).
  { constructor; [reflexivity |]. clear Hne Hspace.
    induction Hall as [|c s Hc _ IH]; [constructor |].
    cbn [flat_map app]. constructor; [| constructor; [reflexivity | exact IH]].
    unfold Re.lit. rewrite N.eqb_sym. apply Hc. }
  assert (Hback : Forall (fun c => Re.lit backslash c = false)
                    (32%N :: flat_map (fun c => [c; 32%N]) pattern)).
  { constructor; [reflexivity |]. clear Hne Hspace Hdot.
    induction Hall as [|c s Hc _ IH]; [constructor |].
    cbn [flat_map app]. constructor; [| constructor; [reflexivity | exact IH]].
    unfold Re.lit. rewrite N.eqb_sym. apply Hc. }
  assert (Hwords : Forall (fun w : str => w <> [] /\ Forall (fun c => is_space c = false) w)
                     (map (fun c => [c]) pattern)).
  { clear Hne Hall Hdot Hback. induction Hspace as [|c s Hc _ IH]; [constructor |].
    cbn [map]. constructor; [| exact IH]. split; [discriminate |].
    constructor; [exact Hc | constructor]. }
  rewrite regex_to_sample_message_steps.
  destruct pattern as [|c0 rest] eqn:Hp; [congruence |]. rewrite <- Hp in *.
  rewrite first_alternative_no_bar.
  2:{ unfold char_in. clear Hp Hne Hspace Hdot Hback Hwords.
      induction Hall as [|c s Hc _ IH]; [reflexivity |].
      cbn [existsb]. rewrite IH, orb_false_r, N.eqb_sym. apply Hc. }
  assert (Hstrip : strip_anchors pattern = pattern).
  { unfold strip_anchors, lstrip, rstrip.
    rewrite (drop_while_id _ pattern).
    - rewrite drop_while_id; [apply rev_involutive |].
      intros c. rewrite head_rev_last. intros Hc.
      apply last_Some in Hc as [l' Hl]. rewrite Hl in Hall.
      apply Forall_app in Hall as [_ Hall]. inversion Hall as [|? ? Hx _]; subst.
      unfold char_in; cbn [existsb]. rewrite orb_false_r. apply Hx.
    - intros c Hc. rewrite Hp in Hc, Hall. injection Hc as <-.
      inversion Hall as [|? ? Hx _]; subst.
      unfold char_in; cbn [existsb]. rewrite orb_false_r. apply Hx. }
  rewrite Hstrip. unfold Steps.finish, replacements. cbn [fold_left].
  rewrite (sub_no_match is_space Re.Plus _ _ pattern ltac:(discriminate) Hspace).
  change (text " ") with [32%N].
  rewrite (sub_optional_whitespace pattern Hspace).
  rewrite (sub_no_match (Re.lit dot) Re.Plus _ _ _ ltac:(discriminate) Hdot).
  rewrite (sub_no_match (Re.lit dot) Re.One _ _ _ ltac:(discriminate) Hdot).
  rewrite (sub_no_match (Re.lit backslash) Re.One _ _ _ ltac:(discriminate) Hback).
  rewrite (sub_no_match (Re.lit backslash) Re.One _ _ _ ltac:(discriminate) Hback).
  rewrite (sub_no_match (Re.lit backslash) Re.One _ _ _ ltac:(discriminate) Hback).
  rewrite (sub_no_match (Re.lit backslash) Re.One _ _ _ ltac:(discriminate) Hback).
  rewrite replace_char_id.
  2:{ eapply Forall_impl; [exact Hback |]. intros c Hc. unfold Re.lit in Hc.
      rewrite N.eqb_sym. exact Hc. }
  rewrite (split_ws_letter_spaced pattern Hspace).
  destruct (join_words_ends (fun c => is_space c = false) _ Hwords) as (Hhead & Hlast & Hjoin).
  change (text " ") with [32%N] in Hhead, Hlast, Hjoin.
  rewrite strip_id by assumption.
  assert (Hnonempty : join [32%N] (map (fun c => [c]) pattern) <> [])
    by (apply Hjoin; rewrite Hp; discriminate).
  destruct (join [32%N] (map (fun c => [c]) pattern)); [congruence | reflexivity].
Qed.

Lemma plain_pattern_is_letter_spaced_witness :
  text "hello" <> []
  /\ Forall (fun c => plain c = true) (text "hello")
  /\ regex_to_sample_message (text "hello")
     = join (text " ") (map (fun c => [c]) (text "hello")).
Proof.
  assert (Hne : text "hello" <> []) by (vm_compute; discriminate).
  assert (Hplain : Forall (fun c => plain c = true) (text "hello"))
    by (vm_compute; repeat constructor).
  split; [exact Hne |]. split; [exact Hplain |].
  apply (plain_pattern_is_letter_spaced (text "hello") Hne Hplain).
Defined.

(** ** Decimal indices in paths and ids *)

Section DecimalProperties.
Import Digits.

Lemma text_of_uint (d : Decimal.uint) :
  text (NilEmpty.string_of_uint d) = codes_of_uint d.
Proof.
  unfold text. induction d; cbn [NilEmpty.string_of_uint list_ascii_of_string map codes_of_uint];
    [reflexivity | ..]; cbn [utf8_decode N_of_ascii N_of_digits]; cbn; rewrite IHd; reflexivity.
Qed.

Lemma to_uint_nonnil (n : nat) : Nat.to_uint n <> Decimal.Nil.
Proof.
  intros H. pose proof (DecimalNat.Unsigned.of_to n) as Hn. rewrite H in Hn.
  cbn in Hn. subst n. discriminate H.
Qed.

Lemma decimal_codes (n : nat) : decimal n = codes_of_uint (Nat.to_uint n).
Proof.
  unfold decimal. rewrite <- text_of_uint.
  pose proof (to_uint_nonnil n). destruct (Nat.to_uint n); [congruence | reflexivity ..].
Qed.

Lemma codes_of_uint_inj (d d' : Decimal.uint) :
  codes_of_uint d = codes_of_uint d' -> d = d'.
Proof.
  revert d'. induction d; intros d' H; destruct d'; cbn in H; try discriminate H;
    try reflexivity; injection H as H; f_equal; apply IHd, H.
Qed.

Lemma decimal_inj (n m : nat) : decimal n = decimal m -> n = m.
Proof.
  rewrite !decimal_codes. intros H.
  apply DecimalNat.Unsigned.to_uint_inj, codes_of_uint_inj, H.
Qed.

Lemma decimal_digits (n : nat) : Forall (fun c => is_digit c = true) (decimal n).
Proof.
  rewrite decimal_codes. induction (Nat.to_uint n); cbn [codes_of_uint];
    constructor; first [reflexivity | assumption].
Qed.

Lemma decimal_nonempty (n : nat) : decimal n <> [].
Proof.
  rewrite decimal_codes. pose proof (to_uint_nonnil n).
  destruct (Nat.to_uint n); [congruence | discriminate ..].
Qed.

(** Two runs of digits, each followed by a character that is no digit,
    are equal when the whole texts are. *)
Lemma digits_then_other (a a' x x' : str) (c c' : N) :
  Forall (fun d => is_digit d = true) a -> Forall (fun d => is_digit d = true) a' ->
  is_digit c = false -> is_digit c' = false ->
  a ++ c :: x = a' ++ c' :: x' -> a = a' /\ c :: x = c' :: x'.
Proof.
  intros Ha. revert a'. induction Ha as [|d a Hd _ IH]; intros a' Ha' Hc Hc' H.
  - destruct Ha' as [|d' a' Hd' _]; [split; [reflexivity | exact H] |].
    cbn in H. injection H as -> _. congruence.
  - destruct Ha' as [|d' a' Hd' Ha'].
    + cbn in H. injection H as -> _. congruence.
    + cbn in H. injection H as -> H.
      destruct (IH a' Ha' Hc Hc' H) as [-> ->]. split; reflexivity.
Qed.

End DecimalProperties.

(** ** Further properties of the element extractor *)

Section DocumentOrder.
Import Config Extractor Shape Raw.

Lemma map_of_enumerate {A B C : Type} (f : nat -> A -> B) (h : B -> C) (k : A -> C)
    (l : list A) :
  (forall i a, h (f i a) = k a) ->
  map h (map (fun '(i, a) => f i a) (enumerate l)) = map k l.
Proof.
  intros Hf. unfold enumerate.
  assert (Hgen : forall ix : nat -> nat,
            map h (map (fun '(i, a) => f i a) (imap (fun i a => (ix i, a)) l)) = map k l).
  { induction l as [|a l IH]; intros ix; [reflexivity |].
    rewrite imap_cons. cbn [map]. rewrite Hf. f_equal. apply (IH (fun i => ix (S i))). }
  apply (Hgen (fun i => i)).
Qed.

Lemma map_of_flat_map_enumerate {A B C : Type} (F : nat -> A -> list B) (h : B -> C)
    (G : A -> list C) (l : list A) :
  (forall i a, map h (F i a) = G a) ->
  map h (flat_map (fun '(i, a) => F i a) (enumerate l)) = flat_map G l.
Proof.
  intros HF. unfold enumerate.
  assert (Hgen : forall ix : nat -> nat,
            map h (flat_map (fun '(i, a) => F i a) (imap (fun i a => (ix i, a)) l))
            = flat_map G l).
  { induction l as [|a l IH]; intros ix; [reflexivity |].
    rewrite imap_cons. cbn [flat_map]. rewrite map_app, HF. f_equal.
    apply (IH (fun i => ix (S i))). }
  apply (Hgen (fun i => i)).
Qed.

Lemma map_of_flat_map {A B C : Type} (F : A -> list B) (h : B -> C) (l : list A) :
  map h (flat_map F l) = flat_map (fun a => map h (F a)) l.
Proof.
  induction l as [|a l IH]; [reflexivity |].
  cbn [flat_map]. rewrite map_app, IH. reflexivity.
Qed.

Lemma blocks_of_data attrs : map BlockInfo.data (blocks_of attrs) = blocks_of_config attrs.
Proof.
  unfold blocks_of, blocks_of_config, scenarios_of_config.
  apply map_of_flat_map_enumerate. intros s_idx sc.
  rewrite map_of_flat_map. apply flat_map_ext. intros nd.
  rewrite (map_of_enumerate _ _ (fun b => b)); [apply map_id | reflexivity].
Qed.


Lemma nodes_of_raw {C : Type} (h : NodeInfo.t -> C) (k : node -> C) attrs :
  (forall s_idx sc n_idx nd blocks, h (node_info s_idx sc n_idx nd blocks) = k nd) ->
  map h (nodes_of attrs) = map k (nodes_of_config attrs).
Proof.
  intros Hh. unfold nodes_of, nodes_of_config, scenarios_of_config, nodes_of_scenario.
  rewrite <- flat_map_concat_map, (map_of_flat_map _ k).
  apply map_of_flat_map_enumerate. intros s_idx sc.
  apply map_of_enumerate. intros n_idx nd. apply Hh.
Qed.


End DocumentOrder.


Section UniquePaths.
Import Config Extractor Shape Digits.

Lemma enumerate_member {A : Type} (l : list A) (i : nat) (a : A) :
  (i, a) ∈ enumerate l <-> l !! i = Some a.
Proof.
  unfold enumerate. rewrite elem_of_lookup_imap. split.
  - intros (j & b & [= -> ->] & H). exact H.
  - intros H. exists i, a. split; [reflexivity | exact H].
Qed.

Lemma NoDup_enumerate {A : Type} (l : list A) : NoDup (enumerate l).
Proof.
  apply NoDup_alt. intros i j [k a] Hi Hj.
  rewrite enumerate_lookup in Hi, Hj.
  destruct (l !! i); [| discriminate]. destruct (l !! j); [| discriminate].
  cbn in Hi, Hj. congruence.
Qed.

Lemma NoDup_one_level {A C : Type} (p : nat -> A -> C) (l : list A) :
  (forall i a i' a', p i a = p i' a' -> i = i') ->
  NoDup (map (fun '(i, a) => p i a) (enumerate l)).
Proof.
  intros Hp. apply (NoDup_fmap_2_strong (fun '(i, a) => p i a)); [| apply NoDup_enumerate].
  intros [i a] [i' a'] Hin Hin' Heq.
  apply Hp in Heq as <-. apply enumerate_member in Hin, Hin'. congruence.
Qed.

Lemma NoDup_two_level {A B C : Type} (inner : A -> list B) (p : nat -> A -> nat -> B -> C)
    (l : list A) :
  (forall i a k b i' a' k' b', p i a k b = p i' a' k' b' -> i = i' /\ k = k') ->
  NoDup (flat_map (fun '(i, a) => map (fun '(k, b) => p i a k b) (enumerate (inner a)))
                  (enumerate l)).
Proof.
  intros Hp.
  change (NoDup (enumerate l ≫=
                   (fun '(i, a) => map (fun '(k, b) => p i a k b) (enumerate (inner a))))).
  apply NoDup_bind; [| | apply NoDup_enumerate].
  - intros [i a] [i' a'] y Hin Hin' Hy Hy'.
    change (map ?f ?x) with (f <$> x) in Hy, Hy'.
    apply list_elem_of_fmap in Hy as ([k b] & -> & _).
    apply list_elem_of_fmap in Hy' as ([k' b'] & Heq & _).
    apply Hp in Heq as [<- _]. apply enumerate_member in Hin, Hin'. congruence.
  - intros [i a] _. apply NoDup_one_level.
    intros k b k' b' Heq. apply Hp in Heq as [_ Hk]. exact Hk.
Qed.

Lemma literal_scenarios : text "scenarios[" = text "scenarios" ++ [91%N].
Proof. vm_compute. reflexivity. Qed.
Lemma literal_nodes : text "].nodes[" = 93%N :: text ".nodes[".
Proof. vm_compute. reflexivity. Qed.
Lemma literal_entry_edges : text "].entry_edges[" = 93%N :: text ".entry_edges[".
Proof. vm_compute. reflexivity. Qed.
Lemma literal_close : text "]" = [93%N].
Proof. vm_compute. reflexivity. Qed.

(** A path with two indices determines both. *)
Lemma indexed_path_inj (pre mid : str) (i k i' k' : nat) :
  pre ++ decimal i ++ (93%N :: mid) ++ decimal k ++ [93%N]
  = pre ++ decimal i' ++ (93%N :: mid) ++ decimal k' ++ [93%N] ->
  i = i' /\ k = k'.
Proof.
  intros H. apply app_inv_head in H.
  change ((93%N :: mid) ++ decimal k ++ [93%N])
    with (93%N :: (mid ++ decimal k ++ [93%N])) in H.
  change ((93%N :: mid) ++ decimal k' ++ [93%N])
    with (93%N :: (mid ++ decimal k' ++ [93%N])) in H.
  apply digits_then_other in H as [Hi H];
    [| apply decimal_digits | apply decimal_digits | reflexivity | reflexivity].
  split; [apply decimal_inj, Hi |].
  injection H as H. apply app_inv_head in H.
  apply digits_then_other in H as [Hk _];
    [| apply decimal_digits | apply decimal_digits | reflexivity | reflexivity].
  apply decimal_inj, Hk.
Qed.

Lemma node_path_inj s_idx sc n_idx nd blocks s_idx' sc' n_idx' nd' blocks' :
  NodeInfo.path (node_info s_idx sc n_idx nd blocks)
  = NodeInfo.path (node_info s_idx' sc' n_idx' nd' blocks') ->
  s_idx = s_idx' /\ n_idx = n_idx'.
Proof.
  unfold node_info; cbn [NodeInfo.path]. rewrite literal_nodes, literal_close.
  apply indexed_path_inj.
Qed.

Lemma edge_path_inj s_idx sc e_idx e s_idx' sc' e_idx' e' :
  EntryEdgeInfo.path (edge_info s_idx sc e_idx e)
  = EntryEdgeInfo.path (edge_info s_idx' sc' e_idx' e') ->
  s_idx = s_idx' /\ e_idx = e_idx'.
Proof.
  unfold edge_info; cbn [EntryEdgeInfo.path]. rewrite literal_entry_edges, literal_close.
  apply indexed_path_inj.
Qed.

Lemma scenario_path_inj s_idx sc edges nodes s_idx' sc' edges' nodes' :
  ScenarioInfo.path (scenario_info s_idx sc edges nodes)
  = ScenarioInfo.path (scenario_info s_idx' sc' edges' nodes') ->
  s_idx = s_idx'.
Proof.
  unfold scenario_info; cbn [ScenarioInfo.path]. rewrite literal_close.
  intros H. apply app_inv_head in H.
  apply digits_then_other in H as [Hi _];
    [| apply decimal_digits | apply decimal_digits | reflexivity | reflexivity].
  apply decimal_inj, Hi.
Qed.

End UniquePaths.

(** X10: on every configuration the paths of the extracted nodes are
    pairwise distinct, and so are the paths of the extracted entry edges and
    those of the extracted scenarios: a path names one element. *)
Theorem paths_are_unique (c : Config.config) :
  exists nodes edges infos,
    Extractor.on_config c Extractor.extract_nodes = Some nodes
    /\ NoDup (map NodeInfo.path nodes)
    /\ Extractor.on_config c Extractor.extract_entry_edges = Some edges
    /\ NoDup (map EntryEdgeInfo.path edges)
    /\ Extractor.on_config c Extractor.extract_scenarios = Some infos
    /\ NoDup (map ScenarioInfo.path infos).
Proof.
  set (attrs := Extractor.extract_bot_attributes c).
  exists (Shape.nodes_of attrs), (Shape.edges_of attrs), (Shape.scenarios_of attrs).
  rewrite !on_config_run. fold attrs.
  rewrite (extract_entry_edges_run _ attrs), (extract_nodes_run _ attrs),
    (extract_scenarios_run _ attrs) by reflexivity.
  cbn [fst].
  split; [reflexivity |]. split.
  { unfold Shape.nodes_of, Shape.nodes_of_scenario.
    rewrite <- flat_map_concat_map, map_of_flat_map.
    erewrite flat_map_ext.
    - apply (NoDup_two_level
               (fun sc => Config.get (Config.scenario_nodes sc) [])
               (fun s_idx sc n_idx nd =>
                  NodeInfo.path (Extractor.node_info s_idx sc n_idx nd (Shape.blocks_of attrs)))).
      intros. eapply node_path_inj. eassumption.
    - intros [s_idx sc]. rewrite map_map. apply map_ext. intros [n_idx nd]. reflexivity. }
  split; [reflexivity |]. split.
  { unfold Shape.edges_of, Shape.edges_of_scenario.
    rewrite map_of_flat_map.
    erewrite flat_map_ext.
    - apply (NoDup_two_level
               (fun sc => Config.get (Config.scenario_entry_edges sc) [])
               (fun s_idx sc e_idx e =>
                  EntryEdgeInfo.path (Extractor.edge_info s_idx sc e_idx e))).
      intros. eapply edge_path_inj. eassumption.
    - intros [s_idx sc]. rewrite map_map. apply map_ext. intros [e_idx e]. reflexivity. }
  split; [reflexivity |].
  unfold Shape.scenarios_of. rewrite map_map.
  erewrite map_ext.
  - apply (NoDup_one_level
             (fun s_idx sc =>
                ScenarioInfo.path (Extractor.scenario_info s_idx sc (Shape.edges_of attrs)
                                     (Shape.nodes_of attrs)))).
    intros. eapply scenario_path_inj. eassumption.
  - intros [s_idx sc]. reflexivity.
Qed.

Section Lookups.
Import Config Extractor Shape Raw.

Lemma find_first {A : Type} (f : A -> bool) (l : list A) :
  match find f l with
  | Some x =>
      exists i, l !! i = Some x /\ f x = true
                /\ forall j y, j < i -> l !! j = Some y -> f y = false
  | None => forall y, y ∈ l -> f y = false
  end.
Proof.
  induction l as [|a l IH]; cbn [find].
  - intros y Hy. inversion Hy.
  - destruct (f a) eqn:Ha.
    + exists 0. split; [reflexivity |]. split; [exact Ha |]. intros j y Hj. lia.
    + destruct (find f l) as [x|].
      * destruct IH as (i & Hi & Hx & Hbefore). exists (S i).
        split; [exact Hi |]. split; [exact Hx |].
        intros [|j] y Hj Hy; [cbn in Hy; congruence |].
        apply (Hbefore j y); [lia | exact Hy].
      * intros y Hy. apply elem_of_cons in Hy as [-> | Hy]; [exact Ha | apply IH, Hy].
Qed.

Lemma node_ids_of_config attrs :
  map NodeInfo.node_id (nodes_of attrs)
  = flat_map (fun sc => map (fun nd => get (node_id nd) []) (get (scenario_nodes sc) []))
             (get (scenarios attrs) []).
Proof.
  rewrite (nodes_of_raw _ (fun nd => get (node_id nd) [])) by reflexivity.
  unfold nodes_of_config, scenarios_of_config. apply map_of_flat_map.
Qed.

Lemma nodes_of_member attrs n :
  n ∈ nodes_of attrs ->
  exists s_idx sc n_idx nd, n = node_info s_idx sc n_idx nd (blocks_of attrs).
Proof.
  unfold nodes_of, nodes_of_scenario. intros H.
  apply list_elem_of_In, in_concat in H as (ns & Hns & Hn).
  apply in_map_iff in Hns as ([s_idx sc] & <- & _).
  apply in_map_iff in Hn as ([n_idx nd] & <- & _).
  eauto.
Qed.

Lemma filter_none {A : Type} (P : A -> Prop) `{forall a, Decision (P a)} (l : list A) :
  (forall a, a ∈ l -> ~ P a) -> filter P l = [].
Proof.
  induction l as [|a l IH]; intros Hl; [reflexivity |].
  rewrite filter_cons_False by (apply Hl; constructor).
  apply IH. intros b Hb. apply Hl. constructor. exact Hb.
Qed.

Lemma filter_all {A : Type} (P : A -> Prop) `{forall a, Decision (P a)} (l : list A) :
  (forall a, a ∈ l -> P a) -> filter P l = l.
Proof.
  induction l as [|a l IH]; intros Hl; [reflexivity |].
  rewrite filter_cons_True by (apply Hl; constructor).
  f_equal. apply IH. intros b Hb. apply Hl. constructor. exact Hb.
Qed.

(** Of the elements of a flattened list, a predicate that holds on all
    elements of one part and on none of the others selects that part. *)
Lemma filter_flat_map_one {A B : Type} (P : B -> Prop) `{forall b, Decision (P b)}
    (F : A -> list B) (l : list A) (i : nat) (x : A) :
  l !! i = Some x ->
  (forall b, b ∈ F x -> P b) ->
  (forall j y, l !! j = Some y -> j <> i -> forall b, b ∈ F y -> ~ P b) ->
  filter P (flat_map F l) = F x.
Proof.
  revert i. induction l as [|a l IH]; intros i Hi Hx Hothers; [discriminate |].
  cbn [flat_map]. rewrite filter_app. destruct i as [|i].
  - injection Hi as ->. rewrite (filter_all P (F x) Hx).
    rewrite filter_none; [apply app_nil_r |].
    intros b Hb. apply list_elem_of_In, in_flat_map in Hb as (y & Hy & Hb).
    apply list_elem_of_In, list_elem_of_lookup in Hy as [j Hj].
    apply (Hothers (S j) y Hj); [lia | apply list_elem_of_In, Hb].
  - rewrite (filter_none P (F a)).
    + apply (IH i Hi Hx). intros j y Hj Hne. apply (Hothers (S j) y Hj). lia.
    + apply (Hothers 0 a eq_refl). lia.
Qed.

End Lookups.

(** X11: node lookup agrees with the set of node ids: on every
    configuration, [find_node_by_id] finds a node exactly for the ids of
    [get_all_node_ids], and the node it returns has the id asked for and is
    the first extracted node with it. *)
Theorem find_node_by_id_agrees_with_ids (c : Config.config) (id : str) :
  exists (ids : gset str) (nodes : list NodeInfo.t) (found : option NodeInfo.t),
    Extractor.on_config c Extractor.get_all_node_ids = Some ids
    /\ Extractor.on_config c Extractor.extract_nodes = Some nodes
    /\ Extractor.on_config c (Extractor.find_node_by_id id) = Some found
    /\ (is_Some found <-> id ∈ ids)
    /\ (forall n, found = Some n ->
          NodeInfo.node_id n = id
          /\ exists k, nodes !! k = Some n
               /\ forall j n', j < k -> nodes !! j = Some n' -> NodeInfo.node_id n' <> id).
Proof.
  set (attrs := Extractor.extract_bot_attributes c).
  exists (list_to_set (map NodeInfo.node_id (Shape.nodes_of attrs))), (Shape.nodes_of attrs),
         (find (fun n => str_eqb (NodeInfo.node_id n) id) (Shape.nodes_of attrs)).
  rewrite !on_config_run. fold attrs.
  unfold Extractor.find_node_by_id, Extractor.get_all_node_ids, Extractor.bind,
    Extractor.read_config_attrs.
  rewrite (extract_nodes_run _ attrs) by reflexivity.
  cbn [fst Extractor.config_attrs Extractor.ret].
  split; [rewrite node_ids_of_config; reflexivity |].
  split; [reflexivity |]. split; [reflexivity |].
  pose proof (find_first (fun n => str_eqb (NodeInfo.node_id n) id) (Shape.nodes_of attrs))
    as Hfind.
  destruct (find _ (Shape.nodes_of attrs)) as [n|].
  - destruct Hfind as (k & Hk & Hn & Hbefore).
    apply bool_decide_eq_true in Hn. split.
    + split; [intros _ | intros _; eauto].
      apply elem_of_list_to_set, list_elem_of_In, in_map_iff.
      exists n. split; [exact Hn |]. apply list_elem_of_In, list_elem_of_lookup. eauto.
    + intros n' [= <-]. split; [exact Hn |]. exists k. split; [exact Hk |].
      intros j n' Hj Hn'. specialize (Hbefore j n' Hj Hn').
      apply bool_decide_eq_false in Hbefore. exact Hbefore.
  - split; [| intros n [=]]. split; [intros [n Hn]; discriminate |].
    intros Hin. exfalso.
    apply elem_of_list_to_set, list_elem_of_In, in_map_iff in Hin as (n & Hn & Hin).
    apply list_elem_of_In, Hfind in Hin. apply bool_decide_eq_false in Hin. congruence.
Qed.

(** X12: scenario lookup returns the first entry with the slug: on every
    configuration, [find_scenario_by_slug] returns the record of the first
    scenario entry, in document order, whose derived slug is the one asked
    for, named by its path, so that a later entry with the same slug is
    never found; it returns nothing exactly when no entry has the slug. *)
Theorem find_scenario_by_slug_first (c : Config.config) (slug : str) :
  let scs := Raw.scenarios_of_config (Extractor.extract_bot_attributes c) in
  exists found : option ScenarioInfo.t,
    Extractor.on_config c (Extractor.find_scenario_by_slug slug) = Some found
    /\ match found with
       | Some info =>
           exists i sc,
             scs !! i = Some sc
             /\ Extractor.slug_of sc = slug
             /\ ScenarioInfo.slug info = slug
             /\ ScenarioInfo.path info = text "scenarios[" ++ decimal i ++ text "]"
             /\ forall j sc', j < i -> scs !! j = Some sc' -> Extractor.slug_of sc' <> slug
       | None => forall sc, sc ∈ scs -> Extractor.slug_of sc <> slug
       end.
Proof.
  intros scs. set (attrs := Extractor.extract_bot_attributes c) in *.
  exists (find (fun s => str_eqb (ScenarioInfo.slug s) slug) (Shape.scenarios_of attrs)).
  rewrite on_config_run. fold attrs.
  unfold Extractor.find_scenario_by_slug, Extractor.bind.
  rewrite (extract_scenarios_run _ attrs) by reflexivity.
  split; [reflexivity |].
  assert (Hlookup : forall i, Shape.scenarios_of attrs !! i
            = (fun sc => Extractor.scenario_info i sc (Shape.edges_of attrs)
                           (Shape.nodes_of attrs)) <$> scs !! i).
  { intros i. unfold Shape.scenarios_of. change (map ?f ?l) with (f <$> l).
    rewrite list_lookup_fmap, enumerate_lookup.
    unfold scs, Raw.scenarios_of_config. destruct (_ !! i); reflexivity. }
  pose proof (find_first (fun s => str_eqb (ScenarioInfo.slug s) slug)
                (Shape.scenarios_of attrs)) as Hfind.
  destruct (find _ (Shape.scenarios_of attrs)) as [info|].
  - destruct Hfind as (i & Hi & Hinfo & Hbefore).
    apply bool_decide_eq_true in Hinfo.
    rewrite Hlookup in Hi. destruct (scs !! i) as [sc|] eqn:Hsc; [| discriminate].
    injection Hi as <-. exists i, sc.
    split; [exact Hsc |]. split; [exact Hinfo |]. split; [exact Hinfo |].
    split; [reflexivity |].
    intros j sc' Hj Hsc'.
    specialize (Hbefore j (Extractor.scenario_info j sc' (Shape.edges_of attrs)
                             (Shape.nodes_of attrs)) Hj).
    rewrite Hlookup, Hsc' in Hbefore. specialize (Hbefore eq_refl).
    apply bool_decide_eq_false in Hbefore. exact Hbefore.
  - intros sc Hsc. apply list_elem_of_lookup in Hsc as [i Hi].
    specialize (Hfind (Extractor.scenario_info i sc (Shape.edges_of attrs)
                         (Shape.nodes_of attrs))).
    assert (Hin : Extractor.scenario_info i sc (Shape.edges_of attrs) (Shape.nodes_of attrs)
                  ∈ Shape.scenarios_of attrs).
    { apply list_elem_of_lookup. exists i. rewrite Hlookup, Hi. reflexivity. }
    apply Hfind, bool_decide_eq_false in Hin. exact Hin.
Qed.

(** X13: what a node's block list is: on every configuration each
    extracted node either lists exactly the extracted blocks that carry its
    node id (blocks of a node with the same id in another scenario
    included), or has the id [""] and lists no block; the first holds for
    every node whose id is not empty. *)
Theorem node_blocks_characterised (c : Config.config) :
  exists nodes blocks,
    Extractor.on_config c Extractor.extract_nodes = Some nodes
    /\ Extractor.on_config c Extractor.extract_blocks = Some blocks
    /\ forall n, n ∈ nodes ->
         (NodeInfo.blocks n
          = filter (fun b => BlockInfo.node_id b = NodeInfo.node_id n) blocks
          \/ (NodeInfo.node_id n = [] /\ NodeInfo.blocks n = []))
         /\ (NodeInfo.node_id n <> [] ->
             NodeInfo.blocks n
             = filter (fun b => BlockInfo.node_id b = NodeInfo.node_id n) blocks).
Proof.
  set (attrs := Extractor.extract_bot_attributes c).
  exists (Shape.nodes_of attrs), (Shape.blocks_of attrs).
  rewrite !on_config_run. fold attrs.
  rewrite (extract_nodes_run _ attrs), (extract_blocks_run _ attrs) by reflexivity.
  split; [reflexivity |]. split; [reflexivity |].
  intros n Hn. apply nodes_of_member in Hn as (s_idx & sc & n_idx & nd & ->).
  destruct (Config.node_id nd) as [i|] eqn:Hid.
  - pose proof (node_info_blocks_with_id s_idx sc n_idx nd i (Shape.blocks_of attrs) Hid) as H.
    cbv zeta in H. split; [left; exact H | intros _; exact H].
  - assert (Hempty : NodeInfo.blocks (Extractor.node_info s_idx sc n_idx nd
                                        (Shape.blocks_of attrs)) = []).
    { unfold Extractor.node_info; cbn [NodeInfo.blocks]. rewrite Hid.
      apply filter_none. intros b _. cbn. discriminate. }
    assert (Hnoid : NodeInfo.node_id (Extractor.node_info s_idx sc n_idx nd
                                        (Shape.blocks_of attrs)) = []).
    { unfold Extractor.node_info; cbn [NodeInfo.node_id]. rewrite Hid. reflexivity. }
    split; [right; split; assumption | intros H; congruence].
Qed.

Section OwnElements.
Import Config Extractor Shape.

Lemma scenario_info_own_elements attrs scs i sc :
  scenarios attrs = Some scs ->
  NoDup (map slug_of scs) ->
  scs !! i = Some sc ->
  ScenarioInfo.entry_edges (scenario_info i sc (edges_of attrs) (nodes_of attrs))
  = edges_of_scenario i sc
  /\ ScenarioInfo.nodes (scenario_info i sc (edges_of attrs) (nodes_of attrs))
     = nodes_of_scenario attrs i sc.
Proof.
  intros Hscs Hdistinct Hi.
  assert (Hother : forall j y, enumerate scs !! j = Some y -> j <> i ->
            slug_of y.2 <> slug_of sc /\ y.1 = j).
  { intros j [j' sc'] Hj Hne. rewrite enumerate_lookup in Hj.
    destruct (scs !! j) as [sc''|] eqn:Hj'; [| discriminate]. injection Hj as <- <-.
    split; [| reflexivity]. cbn. intros Heq. apply Hne.
    apply (NoDup_lookup _ j i (slug_of sc'') Hdistinct).
    - change (map ?f ?l) with (f <$> l). rewrite list_lookup_fmap, Hj'. reflexivity.
    - change (map ?f ?l) with (f <$> l). rewrite list_lookup_fmap, Hi, Heq. reflexivity. }
  assert (Hat : enumerate scs !! i = Some (i, sc))
    by (rewrite enumerate_lookup, Hi; reflexivity).
  unfold scenario_info; cbn [ScenarioInfo.entry_edges ScenarioInfo.nodes]. split.
  - unfold edges_of. rewrite Hscs. cbn [get].
    apply (filter_flat_map_one _ (fun '(s_idx, sc') => edges_of_scenario s_idx sc')
             (enumerate scs) i (i, sc) Hat).
    + intros e He. apply bool_decide_eq_true. apply (edges_of_scenario_slug _ _ _ He).
    + intros j [j' sc'] Hj Hne e He Hslug. apply bool_decide_eq_true in Hslug.
      destruct (Hother j (j', sc') Hj Hne) as [Hdiff _]. apply Hdiff. cbn.
      rewrite <- (edges_of_scenario_slug _ _ _ He). exact Hslug.
  - unfold nodes_of. rewrite Hscs. cbn [get]. rewrite <- flat_map_concat_map.
    apply (filter_flat_map_one _
             (fun '(s_idx, sc') => nodes_of_scenario attrs s_idx sc')
             (enumerate scs) i (i, sc) Hat).
    + intros n Hn. apply bool_decide_eq_true. apply (nodes_of_scenario_slug _ _ _ _ Hn).
    + intros j [j' sc'] Hj Hne n Hn Hslug. apply bool_decide_eq_true in Hslug.
      destruct (Hother j (j', sc') Hj Hne) as [Hdiff _]. apply Hdiff. cbn.
      rewrite <- (nodes_of_scenario_slug _ _ _ _ Hn). exact Hslug.
Qed.

End OwnElements.

(** X14: with pairwise distinct derived slugs nothing is shared: in every
    configuration whose scenario entries have pairwise distinct derived
    slugs, the record of each entry lists exactly the entry's own entry
    edges and its own nodes, in document order. *)
Theorem distinct_slugs_own_elements
    (c : Config.config) (scs : list Config.scenario) (i : nat) (sc : Config.scenario) :
  Config.scenarios (Extractor.extract_bot_attributes c) = Some scs ->
  NoDup (map Extractor.slug_of scs) ->
  scs !! i = Some sc ->
  exists (infos : list ScenarioInfo.t) (info : ScenarioInfo.t),
    Extractor.on_config c Extractor.extract_scenarios = Some infos
    /\ infos !! i = Some info
    /\ ScenarioInfo.entry_edges info = Shape.edges_of_scenario i sc
    /\ ScenarioInfo.nodes info
       = Shape.nodes_of_scenario (Extractor.extract_bot_attributes c) i sc.
Proof.
  intros Hscs Hdistinct Hi.
  set (attrs := Extractor.extract_bot_attributes c) in *.
  exists (Shape.scenarios_of attrs),
         (Extractor.scenario_info i sc (Shape.edges_of attrs) (Shape.nodes_of attrs)).
  rewrite on_config_run. fold attrs.
  rewrite (extract_scenarios_run _ attrs) by reflexivity.
  split; [reflexivity |].
  split; [eapply scenarios_of_lookup; eassumption |].
  apply (scenario_info_own_elements attrs scs i sc Hscs Hdistinct Hi).
Qed.

Lemma distinct_slugs_own_elements_witness :
  Config.scenarios (Extractor.extract_bot_attributes Samples.idless_scenario_config)
  = Some [Samples.first_with_id; Samples.second_without_id]
  /\ NoDup (map Extractor.slug_of [Samples.first_with_id; Samples.second_without_id])
  /\ [Samples.first_with_id; Samples.second_without_id] !! 1 = Some Samples.second_without_id
  /\ exists (infos : list ScenarioInfo.t) (info : ScenarioInfo.t),
    Extractor.on_config Samples.idless_scenario_config Extractor.extract_scenarios
    = Some infos
    /\ infos !! 1 = Some info
    /\ ScenarioInfo.entry_edges info
       = Shape.edges_of_scenario 1 Samples.second_without_id
    /\ ScenarioInfo.nodes info
       = Shape.nodes_of_scenario
           (Extractor.extract_bot_attributes Samples.idless_scenario_config)
           1 Samples.second_without_id.
Proof.
  assert (Hdistinct : NoDup (map Extractor.slug_of
                               [Samples.first_with_id; Samples.second_without_id])).
  { cbn [map]. constructor.
    - intros H. apply list_elem_of_singleton in H. vm_compute in H. discriminate H.
    - constructor; [intros H; inversion H | constructor]. }
  split; [reflexivity |]. split; [exact Hdistinct |]. split; [reflexivity |].
  apply (distinct_slugs_own_elements Samples.idless_scenario_config
           [Samples.first_with_id; Samples.second_without_id] 1 Samples.second_without_id);
    [reflexivity | exact Hdistinct | reflexivity].
Defined.

(** ** Properties of the summary *)

Section SummaryProperties.
Import Config Extractor Shape Raw Analyzer.





Lemma blocks_of_member attrs b :
  b ∈ blocks_of attrs ->
  BlockInfo.data b ∈ blocks_of_config attrs
  /\ BlockInfo.type b = get (block_type (BlockInfo.data b)) (text "unknown").
Proof.
  intros Hb. split.
  - rewrite <- blocks_of_data. apply list_elem_of_In, in_map, list_elem_of_In, Hb.
  - unfold blocks_of in Hb.
    apply list_elem_of_In, in_flat_map in Hb as ([s_idx sc] & _ & Hb).
    apply in_flat_map in Hb as (nd & _ & Hb).
    apply in_map_iff in Hb as ([b_idx raw] & <- & _). reflexivity.
Qed.

Lemma for_each_lift {A B : Type} (l : list A) (f : A -> option B) (self : ElementExtractor) :
  Forall (fun a => is_Some (f a)) l ->
  for_each l (fun a => lift (f a)) self = (Some (omap f l), self).
Proof.
  induction 1 as [|a l [b Hb] _ IH]; [reflexivity |].
  cbn [for_each]. unfold bind, lift at 1. rewrite Hb, IH.
  unfold ret. cbn [omap list_omap]. rewrite Hb. reflexivity.
Qed.

Lemma llm_entries_defined attrs :
  Forall (fun b => llm_model_ok b = true) (blocks_of_config attrs) ->
  Forall (fun b => is_Some (llm_entry b))
         (filter (fun b => str_eqb (BlockInfo.type b) (text "llm") = true) (blocks_of attrs)).
Proof.
  intros Hok. apply Forall_forall. intros b Hb.
  apply list_elem_of_filter in Hb as [Hty Hb].
  apply blocks_of_member in Hb as [Hdata Htype].
  rewrite Forall_forall in Hok. specialize (Hok _ Hdata).
  unfold llm_model_ok in Hok. rewrite <- Htype, Hty in Hok. cbn [negb orb] in Hok.
  unfold llm_entry. destruct (model_name (BlockInfo.data b)); [eexists; reflexivity |].
  discriminate Hok.
Qed.

Lemma get_summary_run attrs self :
  config_attrs self = Some attrs ->
  Forall (fun b => llm_model_ok b = true) (blocks_of_config attrs) ->
  get_summary self = (Some (summary_of attrs), self).
Proof.
  intros Hattrs Hok. unfold get_summary, bind.
  rewrite (extract_scenarios_run _ _ Hattrs), (extract_blocks_run _ _ Hattrs),
    (extract_entry_edges_run _ _ Hattrs).
  unfold extract_blocks_by_type, bind.
  rewrite (extract_blocks_run _ _ Hattrs). cbn [ret].
  rewrite for_each_lift by (apply llm_entries_defined, Hok).
  unfold read_config_attrs. rewrite Hattrs. unfold ret. cbn beta iota.
  rewrite (extract_blocks_run _ _ Hattrs). cbn beta iota.
  rewrite (extract_blocks_run _ _ Hattrs). reflexivity.
Qed.


Lemma length_flat_map {A B : Type} (f : A -> list B) (l : list A) :
  length (flat_map f l) = list_sum (map (fun a => length (f a)) l).
Proof.
  induction l as [|a l IH]; [reflexivity |].
  cbn [flat_map map list_sum]. rewrite length_app, IH. reflexivity.
Qed.

End SummaryProperties.



Section NodeCount.
Import Config Extractor Shape Raw Analyzer.

Lemma scenarios_of_lookup_all attrs i :
  scenarios_of attrs !! i
  = (fun sc => scenario_info i sc (edges_of attrs) (nodes_of attrs))
      <$> scenarios_of_config attrs !! i.
Proof.
  unfold scenarios_of, scenarios_of_config. change (map ?f ?l) with (f <$> l).
  rewrite list_lookup_fmap, enumerate_lookup.
  destruct (get (scenarios attrs) [] !! i); reflexivity.
Qed.

Lemma nodes_of_length attrs : length (nodes_of attrs) = length (nodes_of_config attrs).
Proof.
  rewrite <- (length_map NodeInfo.node_id),
    (nodes_of_raw _ (fun nd => get (node_id nd) [])) by reflexivity.
  apply length_map.
Qed.

End NodeCount.

(** X16: with pairwise distinct derived slugs the node count of the summary
    is the number of nodes: on every configuration whose scenario entries
    have pairwise distinct derived slugs (and whose [llm] blocks have a
    mapping as [model], if any), the [nodes_count] of the summary is the
    number of extracted nodes, which is the number of node entries. *)
Theorem summary_node_count
    (c : Config.config) (scs : list Config.scenario) :
  Forall (fun b => Analyzer.llm_model_ok b = true)
         (Raw.blocks_of_config (Extractor.extract_bot_attributes c)) ->
  Config.scenarios (Extractor.extract_bot_attributes c) = Some scs ->
  NoDup (map Extractor.slug_of scs) ->
  exists info nodes,
    Extractor.on_config c Analyzer.get_summary = Some info
    /\ Extractor.on_config c Extractor.extract_nodes = Some nodes
    /\ BotInfo.nodes_count info = length nodes
    /\ BotInfo.nodes_count info
       = Analyzer.node_entries (Extractor.extract_bot_attributes c).
Proof.
  intros Hok Hscs Hdistinct. set (attrs := Extractor.extract_bot_attributes c) in *.
  exists (summary_of attrs), (Shape.nodes_of attrs).
  rewrite !on_config_run. fold attrs.
  rewrite (get_summary_run attrs) by (reflexivity || exact Hok).
  rewrite (extract_nodes_run _ attrs) by reflexivity.
  split; [reflexivity |]. split; [reflexivity |].
  assert (Hcount : BotInfo.nodes_count (summary_of attrs) = Analyzer.node_entries attrs).
  { unfold BotInfo.nodes_count, Analyzer.node_entries, summary_of. cbn [BotInfo.scenarios].
    unfold Raw.nodes_of_config. rewrite length_flat_map. f_equal.
    apply list_eq. intros i. change (map ?f ?l) with (f <$> l).
    rewrite !list_lookup_fmap, scenarios_of_lookup_all.
    destruct (Raw.scenarios_of_config attrs !! i) as [sc|] eqn:Hi; [| reflexivity].
    cbn [fmap option_fmap option_map]. f_equal.
    assert (Hi' : scs !! i = Some sc).
    { unfold Raw.scenarios_of_config in Hi. rewrite Hscs in Hi. exact Hi. }
    destruct (scenario_info_own_elements attrs scs i sc Hscs Hdistinct Hi') as [_ ->].
    unfold Shape.nodes_of_scenario, Config.enumerate.
    rewrite length_map, length_imap. reflexivity. }
  split; [| exact Hcount].
  rewrite Hcount. unfold Analyzer.node_entries. symmetry. apply nodes_of_length.
Qed.

Lemma summary_node_count_witness :
  Forall (fun b => Analyzer.llm_model_ok b = true)
         (Raw.blocks_of_config (Extractor.extract_bot_attributes summary_config))
  /\ Config.scenarios (Extractor.extract_bot_attributes summary_config)
     = Some (Raw.scenarios_of_config (Extractor.extract_bot_attributes summary_config))
  /\ NoDup (map Extractor.slug_of
              (Raw.scenarios_of_config (Extractor.extract_bot_attributes summary_config)))
  /\ exists info nodes,
    Extractor.on_config summary_config Analyzer.get_summary = Some info
    /\ Extractor.on_config summary_config Extractor.extract_nodes = Some nodes
    /\ BotInfo.nodes_count info = length nodes
    /\ BotInfo.nodes_count info
       = Analyzer.node_entries (Extractor.extract_bot_attributes summary_config).
Proof.
  assert (Hdistinct : NoDup (map Extractor.slug_of
            (Raw.scenarios_of_config (Extractor.extract_bot_attributes summary_config)))).
  { vm_compute. constructor.
    - intros H. apply list_elem_of_singleton in H. discriminate H.
    - constructor; [intros H; inversion H | constructor]. }
  assert (Hok : Forall (fun b => Analyzer.llm_model_ok b = true)
            (Raw.blocks_of_config (Extractor.extract_bot_attributes summary_config)))
    by (vm_compute; repeat constructor).
  split; [exact Hok |]. split; [reflexivity |]. split; [exact Hdistinct |].
  apply (summary_node_count summary_config
           (Raw.scenarios_of_config (Extractor.extract_bot_attributes summary_config))
           Hok eq_refl Hdistinct).
Defined.

(** ** Further properties of the dynamic parametrization *)

Section TestIdShape.
Import Re Conftest Digits.

Lemma match_here_star_cons (p : N -> bool) (c : N) (t : str) :
  match_here [(p, Star)] (c :: t)
  = if p c then
      match match_here [(p, Star)] t with
      | Some n => Some (S n)
      | None => Some 0
      end
    else Some 0.
Proof. reflexivity. Qed.

Lemma match_here_plus_cons (p : N -> bool) (c : N) (t : str) :
  match_here [(p, Plus)] (c :: t)
  = if p c then S <$> match_here [(p, Star)] t else None.
Proof. reflexivity. Qed.

Lemma match_here_star (p : N -> bool) (t : str) (m : nat) :
  match_here [(p, Star)] t = Some m -> Forall (fun c => p c = true) (take m t).
Proof.
  revert m. induction t as [|c t IH]; intros m Hm.
  - destruct m; constructor.
  - rewrite match_here_star_cons in Hm. destruct (p c) eqn:Hc.
    + destruct (match_here [(p, Star)] t) as [k|].
      * injection Hm as <-. cbn [take]. constructor; [exact Hc | apply IH, eq_refl].
      * injection Hm as <-. constructor.
    + injection Hm as <-. constructor.
Qed.

(** A match of a one-or-more pattern is not empty and lies in the class. *)
Lemma match_here_plus (p : N -> bool) (s : str) (n : nat) :
  match_here [(p, Plus)] s = Some n ->
  n <> 0 /\ Forall (fun c => p c = true) (take n s).
Proof.
  destruct s as [|c s]; [discriminate |].
  rewrite match_here_plus_cons. destruct (p c) eqn:Hc; [| discriminate].
  destruct (match_here [(p, Star)] s) as [k|] eqn:Hk; [| discriminate].
  cbn [fmap option_fmap option_map]. intros [= <-]. split; [lia |].
  cbn [take]. constructor; [exact Hc | apply match_here_star, Hk].
Qed.

Lemma findall_plus_words (p : N -> bool) (s : str) (skip : nat) :
  Forall (fun w => w <> [] /\ Forall (fun c => p c = true) w)
         (findall_scan [(p, Plus)] skip s).
Proof.
  revert skip. induction s as [|c s IH]; intros skip.
  - destruct skip; cbn; constructor.
  - destruct skip as [|k]; cbn [findall_scan]; [| apply IH].
    destruct (match_here [(p, Plus)] (c :: s)) as [n|] eqn:Hn; [| apply IH].
    apply match_here_plus in Hn as [Hn Hall].
    destruct n as [|m]; [congruence |].
    constructor; [| apply IH]. split; [discriminate | exact Hall].
Qed.

Lemma join_underscore_words (p : N -> bool) (words : list str) :
  p 95%N = true ->
  Forall (fun w => w <> [] /\ Forall (fun c => p c = true) w) words ->
  Forall (fun c => p c = true) (join [95%N] words)
  /\ (words <> [] -> join [95%N] words <> []).
Proof.
  intros Hu. induction 1 as [|w words [Hne Hw] Hwords [IH IHne]];
    [split; [constructor | congruence] |].
  destruct words as [|w' words].
  - cbn. split; [exact Hw | intros _; exact Hne].
  - change (join [95%N] (w :: w' :: words)) with (w ++ [95%N] ++ join [95%N] (w' :: words)).
    split.
    + apply Forall_app. split; [exact Hw |].
      apply Forall_app. split; [constructor; [exact Hu | constructor] | exact IH].
    + intros _ H. destruct w; [congruence | discriminate H].
Qed.

Lemma literal_match : text "match_" = text "match" ++ [95%N].
Proof. vm_compute. reflexivity. Qed.
Lemma literal_underscore : text "_" = [95%N].
Proof. vm_compute. reflexivity. Qed.
Lemma literal_pattern : text "_pattern" = 95%N :: text "pattern".
Proof. vm_compute. reflexivity. Qed.

Lemma make_test_id_shape unicode_alnum pattern index :
  exists meaningful : str,
    _make_test_id unicode_alnum pattern index
    = text "match_" ++ decimal index ++ 95%N :: meaningful
    /\ meaningful <> []
    /\ length meaningful <= 50
    /\ Forall (fun c => word_class unicode_alnum c = true) meaningful.
Proof.
  unfold _make_test_id, findall.
  pose proof (findall_plus_words (word_class unicode_alnum) pattern 0) as Hwords.
  destruct (findall_scan [(word_class unicode_alnum, Plus)] 0 pattern) as [|w words] eqn:Hf.
  - exists (text "pattern"). rewrite literal_pattern.
    split; [reflexivity |]. split; [vm_compute; discriminate |].
    split; [vm_compute; lia |].
    assert (Hascii : forall c, (c <? 128)%N = true -> is_word unicode_alnum c = true ->
                               word_class unicode_alnum c = true).
    { intros c _ Hc. unfold word_class. rewrite Hc. reflexivity. }
    vm_compute text. repeat (constructor; [apply Hascii; reflexivity |]). constructor.
  - exists (take 50 (join [95%N] (take 3 (w :: words)))).
    rewrite literal_underscore. split; [reflexivity |].
    assert (Htake : Forall (fun w => w <> [] /\ Forall (fun c => word_class unicode_alnum c = true) w)
                      (take 3 (w :: words))) by (apply Forall_take, Hwords).
    destruct (join_underscore_words (word_class unicode_alnum) (take 3 (w :: words)))
      as [Hall Hne]; [reflexivity | exact Htake |].
    split.
    + specialize (Hne ltac:(discriminate)).
      destruct (join [95%N] (take 3 (w :: words))); [congruence | discriminate].
    + split; [rewrite length_take; lia | apply Forall_take, Hall].
Qed.

End TestIdShape.


Section HookCalls.
Import Config Extractor Shape Conftest.
Variable unicode_alnum : N -> bool.

(** The run of the hook on a configuration that is not the empty mapping. *)
Lemma pytest_generate_tests_run c fixturenames :
  truthy c = true ->
  pytest_generate_tests unicode_alnum (Some c) fixturenames
  = Some ((if bool_decide (text "match_edge" ∈ fixturenames)
           then [ parametrize_match_edge unicode_alnum
                    (filter (fun e => str_eqb (EntryEdgeInfo.type e) (text "match") = true)
                            (edges_of (extract_bot_attributes c))) ]
           else [])
          ++ (if bool_decide (text "buttons_scenario" ∈ fixturenames)
              then [ parametrize_buttons_scenario (scenarios_of (extract_bot_attributes c)) ]
              else [])).
Proof.
  intros Htruthy. unfold pytest_generate_tests. rewrite Htruthy.
  cbn [negb]. unfold bind at 1. cbn [set_config_attr].
  set (self := {| config_attrs := Some (extract_bot_attributes c) |}).
  assert (Hattrs : config_attrs self = Some (extract_bot_attributes c)) by reflexivity.
  unfold bind at 1.
  assert (Hmatch :
    (if bool_decide (text "match_edge" ∈ fixturenames)
     then do edges <- extract_entry_edges_by_type (text "match") ;
          ret [ parametrize_match_edge unicode_alnum edges ]
     else ret []) self
    = (Some (if bool_decide (text "match_edge" ∈ fixturenames)
             then [ parametrize_match_edge unicode_alnum
                      (filter (fun e => str_eqb (EntryEdgeInfo.type e) (text "match") = true)
                              (edges_of (extract_bot_attributes c))) ]
             else []), self)).
  { destruct (bool_decide (text "match_edge" ∈ fixturenames)); [| reflexivity].
    unfold bind. rewrite (extract_entry_edges_by_type_run _ _ _ Hattrs). reflexivity. }
  rewrite Hmatch. clear Hmatch. unfold bind at 1.
  assert (Hbuttons :
    (if bool_decide (text "buttons_scenario" ∈ fixturenames)
     then do all_scenarios <- extract_scenarios ;
          ret [ parametrize_buttons_scenario all_scenarios ]
     else ret []) self
    = (Some (if bool_decide (text "buttons_scenario" ∈ fixturenames)
             then [ parametrize_buttons_scenario (scenarios_of (extract_bot_attributes c)) ]
             else []), self)).
  { destruct (bool_decide (text "buttons_scenario" ∈ fixturenames)); [| reflexivity].
    unfold bind. rewrite (extract_scenarios_run _ _ Hattrs). reflexivity. }
  rewrite Hbuttons. reflexivity.
Qed.

Lemma argname_of_buttons_scenario all_scenarios :
  argname (parametrize_buttons_scenario all_scenarios) = text "buttons_scenario".
Proof. unfold parametrize_buttons_scenario. destruct (filter _ all_scenarios); reflexivity. Qed.

Lemma argnames_differ : text "match_edge" <> text "buttons_scenario".
Proof. vm_compute. discriminate. Qed.



(** The ids of two cases with different indices differ. *)
Lemma make_test_id_index_inj pattern pattern' i i' :
  _make_test_id unicode_alnum pattern i = _make_test_id unicode_alnum pattern' i' -> i = i'.
Proof.
  destruct (make_test_id_shape unicode_alnum pattern i) as (m & -> & _).
  destruct (make_test_id_shape unicode_alnum pattern' i') as (m' & -> & _).
  intros H. apply app_inv_head in H.
  apply digits_then_other in H as [H _];
    [apply decimal_inj, H | apply decimal_digits | apply decimal_digits
    | reflexivity | reflexivity].
Qed.

Lemma match_edge_ids_NoDup (edges : list EntryEdgeInfo.t) :
  NoDup (map (fun '(i, e) => _make_test_id unicode_alnum (EntryEdgeInfo.pattern e) i)
             (enumerate edges)).
Proof.
  apply (NoDup_one_level (fun i e => _make_test_id unicode_alnum (EntryEdgeInfo.pattern e) i)).
  intros i e i' e'. apply make_test_id_index_inj.
Qed.

(** A scenario is found to have buttons only if the configuration holds a
    block entry of type ["buttons"]. *)
Lemma has_buttons_block attrs s :
  s ∈ scenarios_of attrs -> has_buttons s = true ->
  exists b, b ∈ Raw.blocks_of_config attrs /\ block_type b = Some (text "buttons").
Proof.
  intros Hs Hb. unfold scenarios_of in Hs.
  apply list_elem_of_In, in_map_iff in Hs as ([s_idx sc] & <- & _).
  unfold has_buttons in Hb. apply existsb_exists in Hb as (nd & Hnd & Hb).
  apply existsb_exists in Hb as (b & Hin & Hb).
  cbn [ScenarioInfo.nodes scenario_info] in Hnd.
  apply list_elem_of_In, list_elem_of_filter in Hnd as [_ Hnd].
  apply nodes_of_member in Hnd as (s' & sc' & n_idx & raw & ->).
  cbn [NodeInfo.blocks node_info] in Hin.
  apply list_elem_of_In, list_elem_of_filter in Hin as [_ Hin].
  apply blocks_of_member in Hin as [Hraw Htype].
  exists (BlockInfo.data b). split; [exact Hraw |].
  unfold str_eqb in Hb. apply bool_decide_eq_true in Hb. rewrite Htype in Hb.
  destruct (block_type (BlockInfo.data b)) as [ty|]; cbn [get] in Hb.
  - rewrite Hb. reflexivity.
  - vm_compute in Hb. discriminate Hb.
Qed.

Lemma buttons_scenario_calls_run c fixturenames :
  truthy c = true ->
  buttons_scenario_calls unicode_alnum (Some c) fixturenames
  = Some (if bool_decide (text "buttons_scenario" ∈ fixturenames)
          then [ parametrize_buttons_scenario (scenarios_of (extract_bot_attributes c)) ]
          else []).
Proof.
  intros Htruthy. unfold buttons_scenario_calls.
  rewrite (pytest_generate_tests_run _ _ Htruthy).
  cbn [fmap option_fmap option_map]. f_equal. rewrite filter_app.
  assert (Hm : filter (fun call : parametrize => argname call = text "buttons_scenario")
                 (if bool_decide (text "match_edge" ∈ fixturenames)
                  then [ parametrize_match_edge unicode_alnum
                           (filter (fun e => str_eqb (EntryEdgeInfo.type e) (text "match") = true)
                                   (edges_of (extract_bot_attributes c))) ]
                  else []) = []).
  { destruct (bool_decide (text "match_edge" ∈ fixturenames)); [| reflexivity].
    rewrite filter_cons_False; [reflexivity |].
    rewrite argname_match_edge. apply argnames_differ. }
  rewrite Hm. cbn [app]. clear Hm.
  destruct (bool_decide (text "buttons_scenario" ∈ fixturenames)); [| reflexivity].
  rewrite filter_cons_True by apply argname_of_buttons_scenario. reflexivity.
Qed.

End HookCalls.


(** X19: the match-edge cases and their ids: for every configuration with
    at least one match-type entry edge and every test function that takes
    [match_edge], the hook makes one [match_edge] call whose cases are the
    extracted match edges in document order, none skipped, whose id at
    index [i] is the test id of the pattern of edge [i] with that index,
    and the ids are pairwise distinct. *)
Theorem match_edge_ids_distinct
    (unicode_alnum : N -> bool) (c : Config.config) (fixturenames : list str) :
  text "match_edge" ∈ fixturenames ->
  Shape.match_patterns (Extractor.extract_bot_attributes c) <> [] ->
  exists (call : Conftest.parametrize) (edges : list EntryEdgeInfo.t) (ids : list str),
    Conftest.match_edge_calls unicode_alnum (Some c) fixturenames = Some [call]
    /\ Extractor.on_config c (Extractor.extract_entry_edges_by_type (text "match"))
       = Some edges
    /\ map EntryEdgeInfo.pattern edges
       = Shape.match_patterns (Extractor.extract_bot_attributes c)
    /\ Conftest.argvalues call = map Conftest.edge_case edges
    /\ Conftest.ids call = Some ids
    /\ ids = imap (fun i e => Conftest._make_test_id unicode_alnum (EntryEdgeInfo.pattern e) i)
                  edges
    /\ NoDup ids.
Proof.
  intros Hin Hpatterns.
  assert (Htruthy : Config.truthy c = true) by (apply truthy_of_match_patterns, Hpatterns).
  rewrite (match_edge_calls_run _ _ _ Htruthy).
  rewrite (bool_decide_eq_true_2 _ Hin).
  rewrite on_config_run.
  rewrite (extract_entry_edges_by_type_run _ (Extractor.extract_bot_attributes c))
    by reflexivity.
  rewrite <- match_patterns_extracted in Hpatterns.
  pose proof (match_patterns_extracted (Extractor.extract_bot_attributes c)) as Hmap.
  destruct (filter _ (Shape.edges_of (Extractor.extract_bot_attributes c)))
    as [|e edges] eqn:Hedges; [contradiction Hpatterns; reflexivity |].
  eexists _, (e :: edges), _. split; [reflexivity |]. split; [reflexivity |].
  split; [exact Hmap |].
  cbn [Conftest.parametrize_match_edge Conftest.argvalues Conftest.ids].
  split; [reflexivity |]. split; [reflexivity |]. split.
  - unfold Config.enumerate. generalize (e :: edges). intros l.
    change (map ?f ?l) with (f <$> l). rewrite fmap_imap. reflexivity.
  - apply match_edge_ids_NoDup.
Qed.

Lemma match_edge_ids_distinct_witness :
  text "match_edge" ∈ [text "match_edge"]
  /\ Shape.match_patterns (Extractor.extract_bot_attributes Samples.three_match_config) <> []
  /\ exists (call : Conftest.parametrize) (edges : list EntryEdgeInfo.t) (ids : list str),
    Conftest.match_edge_calls Samples.no_unicode_alnum
      (Some Samples.three_match_config) [text "match_edge"] = Some [call]
    /\ Extractor.on_config Samples.three_match_config
         (Extractor.extract_entry_edges_by_type (text "match"))
       = Some edges
    /\ map EntryEdgeInfo.pattern edges
       = Shape.match_patterns (Extractor.extract_bot_attributes Samples.three_match_config)
    /\ Conftest.argvalues call = map Conftest.edge_case edges
    /\ Conftest.ids call = Some ids
    /\ ids = imap (fun i e => Conftest._make_test_id Samples.no_unicode_alnum
                                (EntryEdgeInfo.pattern e) i) edges
    /\ NoDup ids.
Proof.
  split; [constructor |]. split; [vm_compute; discriminate |].
  apply (match_edge_ids_distinct Samples.no_unicode_alnum
           Samples.three_match_config [text "match_edge"]);
    [constructor | vm_compute; discriminate].
Defined.

(** X20: the buttons placeholder: for every configuration other than the
    empty mapping that holds no block entry of type ["buttons"], and every
    test function that takes [buttons_scenario], the hook makes exactly one
    [buttons_scenario] call, which registers one case,
    [pytest.param(None)] marked to be skipped with the reason
    ["No buttons blocks"], and passes no ids. *)
Theorem no_buttons_one_skipped_case
    (unicode_alnum : N -> bool) (c : Config.config) (fixturenames : list str) :
  Config.truthy c = true ->
  text "buttons_scenario" ∈ fixturenames ->
  Forall (fun b => Config.block_type b <> Some (text "buttons"))
         (Raw.blocks_of_config (Extractor.extract_bot_attributes c)) ->
  exists call : Conftest.parametrize,
    buttons_scenario_calls unicode_alnum (Some c) fixturenames = Some [call]
    /\ Conftest.argname call = text "buttons_scenario"
    /\ Conftest.argvalues call
       = [ Conftest.param_none [ Conftest.skip (text "No buttons blocks") ] ]
    /\ Forall (fun v => Conftest.is_skipped v = true) (Conftest.argvalues call)
    /\ Conftest.ids call = None.
Proof.
  intros Htruthy Hin Hnone.
  rewrite (buttons_scenario_calls_run _ _ _ Htruthy).
  rewrite (bool_decide_eq_true_2 _ Hin).
  eexists. split; [reflexivity |].
  unfold Conftest.parametrize_buttons_scenario.
  rewrite (filter_none (fun s => Conftest.has_buttons s = true)).
  - cbn [Conftest.argname Conftest.argvalues Conftest.ids].
    repeat split. repeat constructor.
  - intros s Hs Hb.
    destruct (has_buttons_block _ _ Hs Hb) as (b & Hraw & Hty).
    rewrite Forall_forall in Hnone. exact (Hnone b Hraw Hty).
Qed.

Lemma no_buttons_one_skipped_case_witness :
  Config.truthy summary_config = true
  /\ text "buttons_scenario" ∈ [text "buttons_scenario"]
  /\ Forall (fun b => Config.block_type b <> Some (text "buttons"))
       (Raw.blocks_of_config (Extractor.extract_bot_attributes summary_config))
  /\ exists call : Conftest.parametrize,
    buttons_scenario_calls Samples.no_unicode_alnum
      (Some summary_config) [text "buttons_scenario"] = Some [call]
    /\ Conftest.argname call = text "buttons_scenario"
    /\ Conftest.argvalues call
       = [ Conftest.param_none [ Conftest.skip (text "No buttons blocks") ] ]
    /\ Forall (fun v => Conftest.is_skipped v = true) (Conftest.argvalues call)
    /\ Conftest.ids call = None.
Proof.
  split; [reflexivity |]. split; [constructor |].
  split; [vm_compute; repeat (constructor; [discriminate |]); constructor |].
  apply (no_buttons_one_skipped_case Samples.no_unicode_alnum
           summary_config [text "buttons_scenario"]);
    [reflexivity | constructor
    | vm_compute; repeat (constructor; [discriminate |]); constructor].
Defined.
